(** * The multi-thumb slider engine of formwerk ([useSlider.ts])

    A shallow embedding of [packages/core/src/useSlider/useSlider.ts] and
    the properties its specification states about it.

    Conventions of the embedding.
    - A JavaScript number is [NaN], one of the two infinities, or a finite
      value, which is a rational kept in lowest terms.  The four arithmetic
      operations round their exact result to the nearest binary64 number,
      ties to even, and overflow to an infinity, as IEEE 754 has it ([b64]).
      The sign of zero is not modelled: the engine divides by no zero other
      than the extent of the track, which is not negative.
    - A value that may be absent is a [jsval]: [undefined], [null] or a
      number.  An array is the list of its elements; an empty slot reads as
      [undefined], as it does in JavaScript.  A write at the index [-1],
      which is the index of a thumb that is not registered, adds a property
      to the array, which a read at [-1] finds: [ArrMinusOne].
    - The reactive state the composable closes over (props, track element,
      thumb registry, field value, touched flag) is one record, [Slider];
      a function that mutates it returns the next record.  None of the
      functions embedded here contains a statement that can throw, so they
      are total functions without an error result. *)

From Stdlib Require Import QArith Qround Qabs Qreduction Qpower ZArith List Bool String Lia Lqa.
Import ListNotations.

Local Open Scope Z_scope.

(** ** JavaScript numbers *)

Module Num.

Inductive number : Type :=
| NaN
| PInf
| NInf
| Fin (q : Q).

Definition of_Z (z : Z) : number := Fin (inject_Z z).

(** Sign of a rational, as a comparison with zero. *)
Definition Qsgn (q : Q) : comparison := (q ?= 0)%Q.

(** *** Rounding to binary64 *)

(** Rounding of a rational to an integer, a tie going to the even one. *)
Definition round_half_even (x : Q) : Z :=
  let f := Qfloor x in
  match (x - inject_Z f ?= 1 # 2)%Q with
  | Lt => f
  | Gt => f + 1
  | Eq => if Z.even f then f else f + 1
  end.

(** [floor (log2 q)] for a positive rational. *)
Definition ilog2 (q : Q) : Z :=
  if Qle_bool 1 q then Z.log2 (Qfloor q) else - Z.log2_up (Qceiling (/ q)).

(** The exponent of the unit in the last place of the binary64 numbers
    around a positive [q]: 53 significant bits, and [2 ^ -1074] for the
    subnormal numbers. *)
Definition ulp_exponent (q : Q) : Z := Z.max (-1074) (ilog2 q - 52).

(** The multiple of the unit in the last place nearest to a positive [q]. *)
Definition nearest (q : Q) : Q :=
  let e := ulp_exponent q in
  (inject_Z (round_half_even (q / 2 ^ e)) * 2 ^ e)%Q.

(** Rounding of a positive rational: from [2 ^ 1024] on the result is
    [Infinity]. *)
Definition b64pos (q : Q) : number :=
  let r := nearest q in
  if Qle_bool (2 ^ 1024) r then PInf else Fin (Qred r).

(** [- a] *)
Definition neg (a : number) : number :=
  match a with
  | NaN => NaN
  | PInf => NInf
  | NInf => PInf
  | Fin r => Fin (Qred (- r))
  end.

(** The binary64 number an exact result is rounded to. *)
Definition b64 (q : Q) : number :=
  match (q ?= 0)%Q with
  | Eq => Fin 0
  | Gt => b64pos q
  | Lt => neg (b64pos (- q))
  end.

(** [a + b] *)
Definition add (a b : number) : number :=
  match a, b with
  | NaN, _ | _, NaN => NaN
  | PInf, NInf | NInf, PInf => NaN
  | PInf, _ | _, PInf => PInf
  | NInf, _ | _, NInf => NInf
  | Fin x, Fin y => b64 (x + y)
  end.

(** [a - b] *)
Definition sub (a b : number) : number :=
  match a, b with
  | NaN, _ | _, NaN => NaN
  | PInf, PInf | NInf, NInf => NaN
  | PInf, _ | _, NInf => PInf
  | NInf, _ | _, PInf => NInf
  | Fin x, Fin y => b64 (x - y)
  end.

(** An infinity with the sign of [c]; [0 * Infinity] is [NaN]. *)
Definition signed_inf (c : comparison) (positive : bool) : number :=
  match c with
  | Eq => NaN
  | Gt => if positive then PInf else NInf
  | Lt => if positive then NInf else PInf
  end.

(** [a * b] *)
Definition mul (a b : number) : number :=
  match a, b with
  | NaN, _ | _, NaN => NaN
  | PInf, PInf | NInf, NInf => PInf
  | PInf, NInf | NInf, PInf => NInf
  | PInf, Fin y | Fin y, PInf => signed_inf (Qsgn y) true
  | NInf, Fin y | Fin y, NInf => signed_inf (Qsgn y) false
  | Fin x, Fin y => b64 (x * y)
  end.

(** [a / b].  A zero divisor is taken as positive zero. *)
Definition div (a b : number) : number :=
  match a, b with
  | NaN, _ | _, NaN => NaN
  | PInf, PInf | PInf, NInf | NInf, PInf | NInf, NInf => NaN
  | PInf, Fin y => match Qsgn y with Lt => NInf | _ => PInf end
  | NInf, Fin y => match Qsgn y with Lt => PInf | _ => NInf end
  | Fin _, PInf | Fin _, NInf => Fin 0
  | Fin x, Fin y =>
      match Qsgn y with
      | Eq => signed_inf (Qsgn x) true
      | _ => b64 (x / y)
      end
  end.

(** [Math.abs] *)
Definition abs (a : number) : number :=
  match a with
  | NaN => NaN
  | PInf | NInf => PInf
  | Fin q => Fin (Qred (Qabs q))
  end.

(** [a < b]: false as soon as one side is [NaN]. *)
Definition lt (a b : number) : bool :=
  match a, b with
  | NaN, _ | _, NaN => false
  | _, NInf => false
  | PInf, _ => false
  | NInf, _ => true
  | Fin _, PInf => true
  | Fin x, Fin y => match (x ?= y)%Q with Lt => true | _ => false end
  end.

(** [a > b] *)
Definition gt (a b : number) : bool := lt b a.

(** [a <= b] *)
Definition le (a b : number) : bool :=
  match a, b with
  | NaN, _ | _, NaN => false
  | NInf, _ => true
  | _, PInf => true
  | _, NInf => false
  | PInf, _ => false
  | Fin x, Fin y => match (x ?= y)%Q with Gt => false | _ => true end
  end.

(** Truthiness of a number: [0] and [NaN] are falsy. *)
Definition truthy (a : number) : bool :=
  match a with
  | NaN => false
  | PInf | NInf => true
  | Fin q => match Qsgn q with Eq => false | _ => true end
  end.

(** Rounding of a rational to an integer, a tie going away from zero. *)
Definition Qround_half_away (q : Q) : Z :=
  match Qsgn q with
  | Lt => - Qfloor (- q + (1 # 2))
  | _ => Qfloor (q + (1 # 2))
  end.

Definition round_half_away (a : number) : number :=
  match a with
  | Fin q => of_Z (Qround_half_away q)
  | _ => a
  end.

Definition is_finite (a : number) : Prop :=
  match a with Fin _ => True | _ => False end.

End Num.

Export Num(number, NaN, PInf, NInf, Fin).

(** ** Values, arrays and the helpers of [utils] *)

Inductive jsval : Type :=
| undefined
| null
| num (n : number).

(** Modelled from the spec: [isNullOrUndefined] of [utils/common] is not
    among the sources; it is the test for a value that is "undefined/unset"
    (§4.3), true of [undefined] and of [null] only. *)
Definition isNullOrUndefined (v : jsval) : bool :=
  match v with
  | undefined | null => true
  | num _ => false
  end.

(** [v ?? d] where [d] is a number. *)
Definition nullish_or (v : jsval) (d : number) : number :=
  match v with
  | undefined | null => d
  | num n => n
  end.

(** [p || d] for a prop of type [number | undefined]. *)
Definition falsy_or (p : option number) (d : number) : number :=
  match p with
  | None => d
  | Some n => if Num.truthy n then n else d
  end.

(** [b ?? d] for a prop of type [boolean | undefined]. *)
Definition bool_or (p : option bool) (d : bool) : bool :=
  match p with
  | None => d
  | Some b => b
  end.

(** [a[i]] for an array that has no property beside its elements: an
    index outside the array, a negative one included, reads [undefined]. *)
Definition array_get (a : list jsval) (i : Z) : jsval :=
  if i <? 0 then undefined else nth (Z.to_nat i) a undefined.

Fixpoint list_set (a : list jsval) (n : nat) (v : jsval) : list jsval :=
  match a, n with
  | [], O => [v]
  | [], S n' => undefined :: list_set [] n' v
  | _ :: rest, O => v :: rest
  | x :: rest, S n' => x :: list_set rest n' v
  end.

Section ArrayMethods.
Context {A B : Type}.

Fixpoint reduce_from (f : B -> A -> Z -> B) (a : list A) (idx : Z) (acc : B) : B :=
  match a with
  | [] => acc
  | curr :: rest => reduce_from f rest (idx + 1) (f acc curr idx)
  end.

(** [a.reduce((acc, curr, idx) => f(acc, curr, idx), init)] *)
Definition reduce (f : B -> A -> Z -> B) (a : list A) (init : B) : B :=
  reduce_from f a 0 init.

Fixpoint findIndex_from (p : A -> bool) (a : list A) (idx : Z) : Z :=
  match a with
  | [] => -1
  | x :: rest => if p x then idx else findIndex_from p rest (idx + 1)
  end.

(** [a.findIndex(p)] *)
Definition findIndex (p : A -> bool) (a : list A) : Z := findIndex_from p a 0.
End ArrayMethods.

(** Modelled from the spec: [toNearestMultipleOf] of [utils/math] is not
    among the sources.  §4.1: it "snaps [value] to the nearest multiple of
    [step]", a tie resolved by the "round half away from zero" rule. *)
Definition toNearestMultipleOf (value multiple : number) : number :=
  Num.mul (Num.round_half_away (Num.div value multiple)) multiple.

(** What the field holds: a value that is not an array, an array, or an
    array that has, beside its elements [a], the value [v] under the key
    [-1]. *)
Inductive FieldValue : Type :=
| Scalar (v : jsval)
| Arr (a : list jsval)
| ArrMinusOne (a : list jsval) (v : jsval).

(** The array [a], new and without a property of its own, after
    [a[i] = v]: a write past the end extends the array, the slots in between
    staying empty; a write at [-1] leaves the elements as they are and adds
    the property [-1].  The engine writes at no index below [-1]
    ([findIndex] answers [-1] at least, the reduction [0] at least), and a
    property there is not modelled. *)
Definition array_set (a : list jsval) (i : Z) (v : jsval) : FieldValue :=
  if i <? 0 then (if i =? -1 then ArrMinusOne a v else Arr a)
  else Arr (list_set a (Z.to_nat i) v).

(** Modelled from the spec: [normalizeArrayable] of [utils/common] is not
    among the sources.  §4.5 has the commit operation read "the current
    array value": an array is taken as it is (a copy of it), any other value
    becomes the only element of a new array.  The elements are all that the
    [filter] that follows keeps of an array. *)
Definition normalizeArrayable (v : FieldValue) : list jsval :=
  match v with
  | Arr a => a
  | ArrMinusOne a _ => a
  | Scalar x => [x]
  end.

(** ** The slider: props, registry and field state *)

Inductive Orientation : Type := horizontal | vertical.
Inductive Direction : Type := ltr | rtl.

(** [SliderProps], each prop read through [toValue]; [None] is a prop that
    is not given.  [label], [name], [modelValue] and [schema] play no part in
    the functions below. *)
Module Props.
Record t : Type := mk {
  orientation : option Orientation;
  dir : option Direction;
  min : option number;
  max : option number;
  step : option number;
  disabled : option bool;
  readonly : option bool
}.
End Props.

Module Coordinate.
Record t : Type := mk { x : number; y : number }.
End Coordinate.

Record MouseEvent : Type := { clientX : number; clientY : number }.

(** What [getBoundingClientRect] gives for the track element. *)
Module DOMRect.
Record t : Type := mk { left : number; top : number; width : number; height : number }.
End DOMRect.

(** A thumb's registration object: its [id], and the identity of the object
    itself, which is what [indexOf] compares. *)
Record ThumbRegistration : Type := { id : string; obj : nat }.

Definition same_object (a b : ThumbRegistration) : bool := Nat.eqb (obj a) (obj b).

(** [a.indexOf(t)] on an array of registration objects. *)
Definition indexOf (a : list ThumbRegistration) (t : ThumbRegistration) : Z :=
  findIndex (same_object t) a.

Module ValueRange.
Record t : Type := mk { min : number; max : number }.
End ValueRange.

(** The object [getThumbRange] returns. *)
Module ThumbRange.
Record t : Type := mk {
  min : number;
  max : number;
  absoluteMin : number;
  absoluteMax : number
}.
End ThumbRange.

(** The calls the slider makes on the field service. *)
Inductive FieldCall : Type :=
| SetValue (v : FieldValue)
| UpdateValidity
| SetTouched (b : bool).

(** [direction] is the direction the locale gives ([useLocale]);
    [trackRef.value] is [None] while the track element is not mounted;
    [calls] records the calls on the field service, the latest first. *)
Record Slider : Type := mkSlider {
  props : Props.t;
  direction : Direction;
  trackRef : option DOMRect.t;
  thumbs : list ThumbRegistration;
  fieldValue : FieldValue;
  touched : bool;
  calls : list FieldCall
}.

(** Modelled from the spec: [useFormField] and [useInputValidity] are not
    among the sources.  §6: the field service "provides [value]
    (scalar-or-array) get/set, [touched] flag set, and a [revalidate()]
    trigger". *)
Definition setValue (v : FieldValue) (s : Slider) : Slider :=
  {| props := props s; direction := direction s; trackRef := trackRef s;
     thumbs := thumbs s; fieldValue := v; touched := touched s;
     calls := SetValue v :: calls s |}.

(** Modelled from the spec: the [touched] flag set of the field service
    (§6), see [setValue]. *)
Definition setTouched (b : bool) (s : Slider) : Slider :=
  {| props := props s; direction := direction s; trackRef := trackRef s;
     thumbs := thumbs s; fieldValue := fieldValue s; touched := b;
     calls := SetTouched b :: calls s |}.

(** Modelled from the spec: the [revalidate()] trigger of the field service
    (§6), see [setValue]; what validation finds is outside the engine. *)
Definition updateValidity (s : Slider) : Slider :=
  {| props := props s; direction := direction s; trackRef := trackRef s;
     thumbs := thumbs s; fieldValue := fieldValue s; touched := touched s;
     calls := UpdateValidity :: calls s |}.

Definition isDisabled (s : Slider) : bool := bool_or (Props.disabled (props s)) false.
Definition isReadonly (s : Slider) : bool := bool_or (Props.readonly (props s)) false.
Definition isMutable (s : Slider) : bool := negb (isDisabled s) && negb (isReadonly s).

Definition getThumbValue (s : Slider) (idx : Z) : jsval :=
  match fieldValue s with
  | Arr a => array_get a idx
  | ArrMinusOne a v => if idx =? -1 then v else array_get a idx
  | Scalar v => if idx =? 0 then v else undefined
  end.

Definition setThumbValue (idx : Z) (value : number) (s : Slider) : Slider :=
  if negb (isMutable s) then s
  else if (List.length (thumbs s) <=? 1)%nat then
    updateValidity (setValue (Scalar (num value)) s)
  else
    let nextValue :=
      filter (fun v => negb (isNullOrUndefined v)) (normalizeArrayable (fieldValue s)) in
    let nextValue := array_set nextValue idx (num value) in
    updateValidity (setValue nextValue s).

Definition getSliderRange (s : Slider) : ValueRange.t :=
  {| ValueRange.min := falsy_or (Props.min (props s)) (Num.of_Z 0);
     ValueRange.max := falsy_or (Props.max (props s)) (Num.of_Z 100) |}.

Definition getThumbRange (s : Slider) (thumbCtx : ThumbRegistration) : ThumbRange.t :=
  let absoluteMin := ValueRange.min (getSliderRange s) in
  let absoluteMax := ValueRange.max (getSliderRange s) in
  let idx := indexOf (thumbs s) thumbCtx in
  let nextThumb := getThumbValue s (idx + 1) in
  let prevThumb := getThumbValue s (idx - 1) in
  let min := nullish_or prevThumb absoluteMin in
  let max := nullish_or nextThumb absoluteMax in
  {| ThumbRange.min := min; ThumbRange.max := max;
     ThumbRange.absoluteMin := absoluteMin; ThumbRange.absoluteMax := absoluteMax |}.

(** [toValue(props.orientation) || 'horizontal'] *)
Definition getOrientation (s : Slider) : Orientation :=
  match Props.orientation (props s) with
  | Some o => o
  | None => horizontal
  end.

(** [getInlineDirection]: [toValue(props.dir) || direction.value] *)
Definition getInlineDirection (s : Slider) : Direction :=
  match Props.dir (props s) with
  | Some d => d
  | None => direction s
  end.

(** [toValue(props.dir) === 'rtl'] *)
Definition dir_is_rtl (s : Slider) : bool :=
  match Props.dir (props s) with
  | Some rtl => true
  | _ => false
  end.

Definition is_vertical (o : Orientation) : bool :=
  match o with vertical => true | horizontal => false end.

(** [toValue(props.step) || 1] *)
Definition getSliderStep (s : Slider) : number :=
  falsy_or (Props.step (props s)) (Num.of_Z 1).

Definition getValueForPagePosition (s : Slider) (c : Coordinate.t) : number :=
  match trackRef s with
  | None => Num.of_Z 0
  | Some rect =>
      let orientation := getOrientation s in
      let percent :=
        match orientation with
        | horizontal =>
            Num.div (Num.sub (Coordinate.x c) (DOMRect.left rect)) (DOMRect.width rect)
        | vertical =>
            Num.div (Num.sub (Coordinate.y c) (DOMRect.top rect)) (DOMRect.height rect)
        end in
      let percent :=
        if dir_is_rtl s || is_vertical orientation
        then Num.sub (Num.of_Z 1) percent else percent in
      let min := falsy_or (Props.min (props s)) (Num.of_Z 0) in
      let max := falsy_or (Props.max (props s)) (Num.of_Z 100) in
      let value := Num.add (Num.mul percent (Num.sub max min)) min in
      toNearestMultipleOf value (falsy_or (Props.step (props s)) (Num.of_Z 1))
  end.

(** The accumulator of the reduction in [trackProps.onMousedown]. *)
Module Candidate.
Record t : Type := mk {
  thumb : option ThumbRegistration;
  diff : number;
  idx : Z
}.
End Candidate.

(** The callback of the reduction, for the target value [targetValue]. *)
Definition closer (s : Slider) (targetValue : number)
    (candidate : Candidate.t) (curr : ThumbRegistration) (idx : Z) : Candidate.t :=
  let r := getThumbRange s curr in
  if Num.lt targetValue (ThumbRange.min r) || Num.gt targetValue (ThumbRange.max r)
  then candidate
  else
    match getThumbValue s idx with
    | undefined | null => candidate
    | num currentThumbValue =>
        let diff := Num.abs (Num.sub currentThumbValue targetValue) in
        if Num.lt diff (Candidate.diff candidate)
        then Candidate.mk (Some curr) diff idx
        else candidate
    end.

Definition closest (s : Slider) (targetValue : number) : Candidate.t :=
  reduce (closer s targetValue) (thumbs s)
    (Candidate.mk (nth_error (thumbs s) 0) PInf 0).

(** [trackProps.onMousedown] *)
Definition onMousedown (e : MouseEvent) (s : Slider) : Slider :=
  match trackRef s with
  | None => s
  | Some _ =>
      if negb (isMutable s) then s
      else
        let targetValue :=
          getValueForPagePosition s (Coordinate.mk (clientX e) (clientY e)) in
        let c := closest s targetValue in
        setTouched true (setThumbValue (Candidate.idx c) targetValue s)
  end.

(** ** The registration protocol *)

(** [thumbs.value.push(ctx)] of [useSliderThumbRegistration]. *)
Definition useSliderThumbRegistration (ctx : ThumbRegistration) (s : Slider) : Slider :=
  {| props := props s; direction := direction s; trackRef := trackRef s;
     thumbs := thumbs s ++ [ctx];
     fieldValue := fieldValue s; touched := touched s; calls := calls s |}.

(** Modelled from the spec: [removeFirst] of [utils/common] is not among
    the sources.  §4.4: it "removes the first registry entry whose identity
    matches; no-op if absent". *)
Fixpoint removeFirst {A : Type} (a : list A) (p : A -> bool) : list A :=
  match a with
  | [] => []
  | x :: rest => if p x then rest else x :: removeFirst rest p
  end.

(** The [onBeforeUnmount] hook of the thumb registered with [id]. *)
Definition unregisterThumb (id0 : string) (s : Slider) : Slider :=
  {| props := props s; direction := direction s; trackRef := trackRef s;
     thumbs := removeFirst (thumbs s) (fun reg => String.eqb (id reg) id0);
     fieldValue := fieldValue s; touched := touched s; calls := calls s |}.

(** [getThumbIndex] of the registration with [id]. *)
Definition getThumbIndex (id0 : string) (s : Slider) : Z :=
  findIndex (fun t => String.eqb (id t) id0) (thumbs s).

(** [reg.setThumbValue] *)
Definition reg_setThumbValue (id0 : string) (value : number) (s : Slider) : Slider :=
  setThumbValue (getThumbIndex id0 s) value s.

(** [reg.getThumbValue] *)
Definition reg_getThumbValue (ctx : ThumbRegistration) (s : Slider) : number :=
  let absoluteMin := ThumbRange.absoluteMin (getThumbRange s ctx) in
  nullish_or (getThumbValue s (getThumbIndex (id ctx) s)) absoluteMin.

(** ** Notions the properties are stated with *)

(** The target lies in the window [[min, max]] of a thumb range: the
    negation of the test that makes the reduction skip a thumb. *)
Definition contains (r : ThumbRange.t) (target : number) : bool :=
  negb (Num.lt target (ThumbRange.min r) || Num.gt target (ThumbRange.max r)).

Definition distance (value target : number) : number :=
  Num.abs (Num.sub value target).

(** The thumb at position [k] of the registry is considered for [target],
    at distance [d]: its window contains the target and its value is set. *)
Definition candidate_at (s : Slider) (target : number) (k : nat) (d : number) : Prop :=
  exists th v,
    nth_error (thumbs s) k = Some th /\
    contains (getThumbRange s th) target = true /\
    getThumbValue s (Z.of_nat k) = num v /\
    d = distance v target.

(** What the callback of the reduction compares for [curr] at [idx]. *)
Definition score (s : Slider) (target : number) (curr : ThumbRegistration) (idx : Z)
  : option number :=
  if contains (getThumbRange s curr) target then
    match getThumbValue s idx with
    | num v => Some (distance v target)
    | _ => None
    end
  else None.

(** [P k d] holds of every element of [l], read from index [i0] on, that
    the callback compares, [d] being what it compares for position [k]. *)
Definition all_scored (s : Slider) (target : number)
    (l : list ThumbRegistration) (i0 : Z) (P : nat -> number -> Prop) : Prop :=
  forall k th d, nth_error l k = Some th ->
    score s target th (i0 + Z.of_nat k) = Some d -> P k d.

(** The scenario of §8: bounds [{0, 10}], step [1], two thumbs at [[2, 8]],
    on a track that is 100 wide, and a pointer-down at [x = 30], which maps
    to the value [3]. *)
Definition thumbA : ThumbRegistration := {| id := "thumb-a"; obj := 0 |}.
Definition thumbB : ThumbRegistration := {| id := "thumb-b"; obj := 1 |}.

Definition track100 : DOMRect.t :=
  DOMRect.mk (Num.of_Z 0) (Num.of_Z 0) (Num.of_Z 100) (Num.of_Z 20).

Definition props_0_10 : Props.t :=
  Props.mk None None (Some (Num.of_Z 0)) (Some (Num.of_Z 10)) (Some (Num.of_Z 1))
    None None.

Definition scenario : Slider :=
  mkSlider props_0_10 ltr (Some track100) [thumbA; thumbB]
    (Arr [num (Num.of_Z 2); num (Num.of_Z 8)]) false [].

Definition click_at_30 : MouseEvent :=
  {| clientX := Num.of_Z 30; clientY := Num.of_Z 10 |}.

(** The same slider before any value is set: the field holds [undefined]. *)
Definition unset_slider : Slider :=
  mkSlider props_0_10 ltr (Some track100) [thumbA; thumbB] (Scalar undefined) false [].

(** A slider with one thumb whose track is not mounted yet. *)
Definition unmounted_slider : Slider :=
  mkSlider props_0_10 ltr None [thumbA] (Scalar (num (Num.of_Z 2))) false [].

(** The scenario of §8 with the [disabled] prop set. *)
Definition disabled_slider : Slider :=
  mkSlider
    (Props.mk None None (Some (Num.of_Z 0)) (Some (Num.of_Z 10)) (Some (Num.of_Z 1))
       (Some true) None)
    ltr (Some track100) [thumbA; thumbB]
    (Arr [num (Num.of_Z 2); num (Num.of_Z 8)]) false [].

(** The number of positions the field value holds. *)
Definition values_length (s : Slider) : nat :=
  match fieldValue s with
  | Arr a => List.length a
  | ArrMinusOne a _ => List.length a
  | Scalar _ => 1%nat
  end.

(** The [N] registered thumbs have the values [vs], one per thumb: the
    field holds them as an array or, for a single thumb, as a scalar. *)
Definition thumb_values (s : Slider) (vs : list number) : Prop :=
  List.length vs = List.length (thumbs s) /\
  (fieldValue s = Arr (map num vs) \/
   exists v, vs = [v] /\ fieldValue s = Scalar (num v)).

(** The slider [s] with its [step] prop changed. *)
Definition with_step (st : option number) (s : Slider) : Slider :=
  let p := props s in
  {| props := Props.mk (Props.orientation p) (Props.dir p) (Props.min p) (Props.max p)
                st (Props.disabled p) (Props.readonly p);
     direction := direction s; trackRef := trackRef s; thumbs := thumbs s;
     fieldValue := fieldValue s; touched := touched s; calls := calls s |}.

(** The scenario of §8 after its second thumb is unmounted: the registry
    holds one thumb, the field value still holds two numbers. *)
Definition after_unmount : Slider := unregisterThumb "thumb-b" scenario.

(** Two thumbs and no value yet, after the second thumb commits [8]: the
    array has an empty slot at position 0. *)
Definition gap_slider : Slider := setThumbValue 1 (Num.of_Z 8) unset_slider.

(** The scenario of §8 with values in order, the first below the minimum. *)
Definition below_min_slider : Slider :=
  mkSlider props_0_10 ltr (Some track100) [thumbA; thumbB]
    (Arr [num (Num.of_Z (-5)); num (Num.of_Z 8)]) false [].

(** The scenario of §8 with a step of [-2]. *)
Definition negative_step_slider : Slider := with_step (Some (Num.of_Z (-2))) scenario.

(** The scenario of §8 with [min] set to [200] and [max] left out, so
    that the bounds in effect are [{200, 100}]. *)
Definition inverted_bounds_slider : Slider :=
  mkSlider
    (Props.mk None None (Some (Num.of_Z 200)) None (Some (Num.of_Z 1)) None None)
    ltr (Some track100) [thumbA; thumbB]
    (Arr [num (Num.of_Z 2); num (Num.of_Z 8)]) false [].

(** The scenario of §8 under a locale whose direction is [rtl], the [dir]
    prop not given. *)
Definition rtl_locale_slider : Slider :=
  mkSlider props_0_10 rtl (Some track100) [thumbA; thumbB]
    (Arr [num (Num.of_Z 2); num (Num.of_Z 8)]) false [].

(** The percent [getValueForPagePosition] computes for a position on the
    track [rect], after the flip where there is one. *)
Definition percent_at (s : Slider) (rect : DOMRect.t) (c : Coordinate.t) : number :=
  let orientation := getOrientation s in
  let percent :=
    match orientation with
    | horizontal =>
        Num.div (Num.sub (Coordinate.x c) (DOMRect.left rect)) (DOMRect.width rect)
    | vertical =>
        Num.div (Num.sub (Coordinate.y c) (DOMRect.top rect)) (DOMRect.height rect)
    end in
  if dir_is_rtl s || is_vertical orientation
  then Num.sub (Num.of_Z 1) percent else percent.

(** The scenario of §8 with the bounds [-2 ^ 1023] and [2 ^ 1023], whose
    difference is not a finite binary64 number. *)
Definition overflowing_bounds_slider : Slider :=
  mkSlider
    (Props.mk None None (Some (Num.of_Z (- 2 ^ 1023))) (Some (Num.of_Z (2 ^ 1023)))
       (Some (Num.of_Z 1)) None None)
    ltr (Some track100) [thumbA; thumbB]
    (Arr [num (Num.of_Z 2); num (Num.of_Z 8)]) false [].

(** A third thumb, for the scenario of §8. *)
Definition thumbC : ThumbRegistration := {| id := "thumb-c"; obj := 2 |}.

(** The scenario of §8 after a third thumb was registered and unmounted and
    then committed [4] through the registration it still holds: its index is
    [-1], and the array written back holds [4] under that key. *)
Definition stale_write_slider : Slider :=
  reg_setThumbValue "thumb-c" (Num.of_Z 4)
    (unregisterThumb "thumb-c" (useSliderThumbRegistration thumbC scenario)).

(** Three thumbs at [[2, 5, 8]] within the bounds [{0, 10}]. *)
Definition three_thumbs : Slider :=
  mkSlider props_0_10 ltr (Some track100)
    [thumbA; thumbB; thumbC]
    (Arr [num (Num.of_Z 2); num (Num.of_Z 5); num (Num.of_Z 8)]) false [].

(** The three thumbs after the last one is unmounted and the second commits
    [9]: two thumbs, and a field that still holds a third value. *)
Definition extra_value_slider : Slider :=
  reg_setThumbValue "thumb-b" (Num.of_Z 9) (unregisterThumb "thumb-c" three_thumbs).

(** ** Notions for the properties of the registry and of the mapping *)

(** Some registration of the registry has the id [id0]. *)
Definition id_registered (id0 : string) (s : Slider) : bool :=
  existsb (fun t => String.eqb (id t) id0) (thumbs s).




(** The slider [s] with its [dir] prop changed. *)
Definition with_dir (d : option Direction) (s : Slider) : Slider :=
  let p := props s in
  {| props := Props.mk (Props.orientation p) d (Props.min p) (Props.max p)
                (Props.step p) (Props.disabled p) (Props.readonly p);
     direction := direction s; trackRef := trackRef s; thumbs := thumbs s;
     fieldValue := fieldValue s; touched := touched s; calls := calls s |}.

(** A slider from [-10] to [0] by its props. *)
Definition zero_max_slider : Slider :=
  mkSlider (Props.mk None None (Some (Num.of_Z (-10))) (Some (Fin 0)) None None None)
    ltr None [] (Scalar undefined) false [].

(** The scenario of §8 on a vertical track. *)
Definition vertical_slider : Slider :=
  mkSlider
    (Props.mk (Some vertical) None (Some (Num.of_Z 0)) (Some (Num.of_Z 10))
       (Some (Num.of_Z 1)) None None)
    ltr (Some track100) [thumbA; thumbB]
    (Arr [num (Num.of_Z 2); num (Num.of_Z 8)]) false [].

(** ** Facts about the number model *)

Module NumFacts.

Lemma le_Fin (a b : Q) : Num.le (Fin a) (Fin b) = true <-> (a <= b)%Q.
Proof.
  simpl. rewrite Qle_alt. destruct (a ?= b)%Q; split; congruence.
Qed.

Lemma lt_Fin (a b : Q) : Num.lt (Fin a) (Fin b) = true <-> (a < b)%Q.
Proof.
  simpl. rewrite Qlt_alt. destruct (a ?= b)%Q; split; congruence.
Qed.

Lemma lt_irrefl (a : number) : Num.lt a a = false.
Proof.
  destruct a as [| | |q]; simpl; try reflexivity.
  assert (H : (q ?= q)%Q = Eq) by (apply Qeq_alt; reflexivity).
  now rewrite H.
Qed.

Lemma lt_trans (a b c : number) :
  Num.lt a b = true -> Num.lt b c = true -> Num.lt a c = true.
Proof.
  destruct a as [| | |p], b as [| | |q], c as [| | |r];
    try (simpl; congruence); intros H1 H2.
  apply lt_Fin. apply lt_Fin in H1. apply lt_Fin in H2.
  eapply Qlt_trans; eassumption.
Qed.

Lemma le_lt_trans (a b c : number) :
  Num.le a b = true -> Num.lt b c = true -> Num.lt a c = true.
Proof.
  destruct a as [| | |p], b as [| | |q], c as [| | |r];
    try (simpl; congruence); intros H1 H2.
  apply lt_Fin. apply le_Fin in H1. apply lt_Fin in H2.
  eapply Qle_lt_trans; eassumption.
Qed.

Lemma le_trans (a b c : number) :
  Num.le a b = true -> Num.le b c = true -> Num.le a c = true.
Proof.
  destruct a as [| | |p], b as [| | |q], c as [| | |r];
    try (simpl; congruence); intros H1 H2.
  apply le_Fin. apply le_Fin in H1. apply le_Fin in H2.
  eapply Qle_trans; eassumption.
Qed.

Lemma lt_not_le (a b : number) : Num.lt a b = true -> Num.le b a = false.
Proof.
  destruct a as [| | |p], b as [| | |q]; try (simpl; congruence); intros H.
  apply lt_Fin in H. destruct (Num.le (Fin q) (Fin p)) eqn:E; [|reflexivity].
  apply le_Fin in E. exfalso. eapply Qlt_not_le; eassumption.
Qed.

Lemma lt_asym (a b : number) : Num.lt a b = true -> Num.lt b a = false.
Proof.
  intros H. destruct (Num.lt b a) eqn:E; [|reflexivity].
  pose proof (lt_trans _ _ _ H E) as C. rewrite lt_irrefl in C. discriminate.
Qed.




Lemma le_refl (a : number) : a <> NaN -> Num.le a a = true.
Proof.
  destruct a as [| | |q]; try (simpl; congruence). intros _.
  apply le_Fin. apply Qle_refl.
Qed.

Lemma truthy_not_NaN (a : number) : Num.truthy a = true -> a <> NaN.
Proof. destruct a; simpl; congruence. Qed.

Lemma falsy_or_not_NaN (p : option number) (d : number) :
  d <> NaN -> falsy_or p d <> NaN.
Proof.
  intros Hd. unfold falsy_or. destruct p as [n|]; [|exact Hd].
  destruct (Num.truthy n) eqn:E; [|exact Hd]. now apply truthy_not_NaN.
Qed.

End NumFacts.

(** ** The reduction of [trackProps.onMousedown] *)

Section Closest.
Variable s : Slider.
Variable target : number.

Lemma closer_score (c : Candidate.t) (curr : ThumbRegistration) (i : Z) :
  closer s target c curr i =
    match score s target curr i with
    | Some d => if Num.lt d (Candidate.diff c) then Candidate.mk (Some curr) d i else c
    | None => c
    end.
Proof.
  unfold closer, score, contains, distance.
  destruct (Num.lt target _ || Num.gt target _); simpl; [reflexivity|].
  destruct (getThumbValue s i); reflexivity.
Qed.

Lemma all_scored_cons curr rest i0 (P : nat -> number -> Prop) :
  (forall d, score s target curr i0 = Some d -> P 0%nat d) ->
  all_scored s target rest (i0 + 1) (fun k => P (S k)) ->
  all_scored s target (curr :: rest) i0 P.
Proof.
  intros Hhead Htail [|k] th d Hnth Hsc; simpl in Hnth.
  - injection Hnth as <-. rewrite Z.add_0_r in Hsc. now apply Hhead.
  - apply (Htail k th d Hnth).
    replace (i0 + 1 + Z.of_nat k) with (i0 + Z.of_nat (S k)) by lia.
    exact Hsc.
Qed.

(** Either no element improved on the initial candidate, or the result
    is the first element of least distance. *)
Lemma reduce_from_closer (l : list ThumbRegistration) :
  forall (i0 : Z) (c0 : Candidate.t),
    let r := reduce_from (closer s target) l i0 c0 in
    (r = c0 /\
     all_scored s target l i0 (fun _ d => Num.lt d (Candidate.diff c0) = false))
    \/
    (exists k th d,
       nth_error l k = Some th /\
       r = Candidate.mk (Some th) d (i0 + Z.of_nat k) /\
       score s target th (i0 + Z.of_nat k) = Some d /\
       Num.lt d (Candidate.diff c0) = true /\
       all_scored s target l i0 (fun k' d' =>
         Num.lt d' d = false /\ ((k' < k)%nat -> Num.le d' d = false))).
Proof.
  induction l as [|curr rest IH]; intros i0 c0; simpl.
  - left. split; [reflexivity|]. intros [|k] th d H; discriminate H.
  - rewrite closer_score.
    destruct (score s target curr i0) as [d0|] eqn:Hs;
      [destruct (Num.lt d0 (Candidate.diff c0)) eqn:Hlt|].
    + (* the head becomes the candidate *)
      destruct (IH (i0 + 1) (Candidate.mk (Some curr) d0 i0))
        as [[Hr Hall] | (k & th & d & Hk & Hr & Hsc & Hd & Hall)];
        simpl in *.
      * right. exists 0%nat, curr, d0. simpl. rewrite Z.add_0_r.
        split; [reflexivity|]. split; [exact Hr|]. split; [exact Hs|].
        split; [exact Hlt|].
        apply all_scored_cons.
        -- intros d E. rewrite Hs in E. injection E as <-.
           split; [apply NumFacts.lt_irrefl | intros C; lia].
        -- intros k th d Hnth Hsc. split; [now apply (Hall k th d)|].
           intros C; lia.
      * right. exists (S k), th, d.
        replace (i0 + Z.of_nat (S k)) with (i0 + 1 + Z.of_nat k) by lia.
        split; [exact Hk|]. split; [exact Hr|]. split; [exact Hsc|].
        split; [eapply NumFacts.lt_trans; eassumption|].
        apply all_scored_cons.
        -- intros d' E. rewrite Hs in E. injection E as <-.
           split; [now apply NumFacts.lt_asym | intros _; now apply NumFacts.lt_not_le].
        -- intros k' th' d' Hnth Hsc'.
           destruct (Hall k' th' d' Hnth Hsc') as [A B].
           split; [exact A | intros C; apply B; lia].
    + (* the head is compared and is not closer *)
      destruct (IH (i0 + 1) c0)
        as [[Hr Hall] | (k & th & d & Hk & Hr & Hsc & Hd & Hall)].
      * left. split; [exact Hr|]. apply all_scored_cons.
        -- intros d E. rewrite Hs in E. injection E as <-. exact Hlt.
        -- exact Hall.
      * right. exists (S k), th, d.
        replace (i0 + Z.of_nat (S k)) with (i0 + 1 + Z.of_nat k) by lia.
        split; [exact Hk|]. split; [exact Hr|]. split; [exact Hsc|].
        split; [exact Hd|].
        apply all_scored_cons.
        -- intros d' E. rewrite Hs in E. injection E as <-. split.
           ++ destruct (Num.lt d0 d) eqn:E; [|reflexivity].
              rewrite (NumFacts.lt_trans _ _ _ E Hd) in Hlt. discriminate.
           ++ intros _. destruct (Num.le d0 d) eqn:E; [|reflexivity].
              rewrite (NumFacts.le_lt_trans _ _ _ E Hd) in Hlt. discriminate.
        -- intros k' th' d' Hnth Hsc'.
           destruct (Hall k' th' d' Hnth Hsc') as [A B].
           split; [exact A | intros C; apply B; lia].
    + (* the head is skipped *)
      destruct (IH (i0 + 1) c0)
        as [[Hr Hall] | (k & th & d & Hk & Hr & Hsc & Hd & Hall)].
      * left. split; [exact Hr|]. apply all_scored_cons.
        -- intros d E. rewrite Hs in E. discriminate E.
        -- exact Hall.
      * right. exists (S k), th, d.
        replace (i0 + Z.of_nat (S k)) with (i0 + 1 + Z.of_nat k) by lia.
        split; [exact Hk|]. split; [exact Hr|]. split; [exact Hsc|].
        split; [exact Hd|].
        apply all_scored_cons.
        -- intros d' E. rewrite Hs in E. discriminate E.
        -- intros k' th' d' Hnth Hsc'.
           destruct (Hall k' th' d' Hnth Hsc') as [A B].
           split; [exact A | intros C; apply B; lia].
Qed.
End Closest.

Lemma candidate_at_score (s : Slider) (target : number) (k : nat)
    (th : ThumbRegistration) (d : number) :
  nth_error (thumbs s) k = Some th ->
  (score s target th (Z.of_nat k) = Some d <-> candidate_at s target k d).
Proof.
  intros Hnth. unfold score, candidate_at. split.
  - destruct (contains (getThumbRange s th) target) eqn:Hc; [|discriminate].
    destruct (getThumbValue s (Z.of_nat k)) as [| |v] eqn:Hv; try discriminate.
    intros E. injection E as <-. exists th, v. auto.
  - intros (th' & v & Hnth' & Hc & Hv & ->).
    rewrite Hnth in Hnth'. injection Hnth' as <-.
    now rewrite Hc, Hv.
Qed.

(** The result of the reduction: the initial candidate when no thumb that is
    considered has a distance below [Infinity]; otherwise the first of the
    considered thumbs of least distance. *)
Lemma closest_spec (s : Slider) (target : number) :
  (closest s target = Candidate.mk (nth_error (thumbs s) 0) PInf 0 /\
   forall k d, candidate_at s target k d -> Num.lt d PInf = false)
  \/
  (exists k th d,
     closest s target = Candidate.mk (Some th) d (Z.of_nat k) /\
     candidate_at s target k d /\
     Num.lt d PInf = true /\
     forall k' d', candidate_at s target k' d' ->
       Num.lt d' d = false /\ ((k' < k)%nat -> Num.le d' d = false)).
Proof.
  unfold closest, reduce.
  destruct (reduce_from_closer s target (thumbs s) 0
              (Candidate.mk (nth_error (thumbs s) 0) PInf 0))
    as [[Hr Hall] | (k & th & d & Hk & Hr & Hsc & Hd & Hall)].
  - left. split; [exact Hr|]. intros k d Hc.
    destruct Hc as (th & v & Hnth & Hc).
    apply (Hall k th d Hnth). simpl.
    apply (candidate_at_score s target k th d Hnth). exists th, v. auto.
  - right. exists k, th, d. simpl in *.
    split; [exact Hr|].
    split; [now apply (candidate_at_score s target k th d Hk)|].
    split; [exact Hd|].
    intros k' d' Hc. pose proof Hc as (th' & v' & Hnth' & _).
    apply (Hall k' th' d' Hnth'). simpl.
    now apply (candidate_at_score s target k' th' d' Hnth').
Qed.

Lemma onMousedown_commits (s : Slider) (e : MouseEvent) (rect : DOMRect.t) :
  trackRef s = Some rect -> isMutable s = true ->
  onMousedown e s =
    let target := getValueForPagePosition s (Coordinate.mk (clientX e) (clientY e)) in
    setTouched true (setThumbValue (Candidate.idx (closest s target)) target s).
Proof.
  intros Ht Hm. unfold onMousedown. now rewrite Ht, Hm.
Qed.

(** ** Track pointer-down *)



(** C4. On a mutable, measured slider with at least one thumb, a
    pointer-down whose target lies outside the range of every registered
    thumb, or that finds the value of every thumb unset, is not dropped: the
    target is committed to index 0, where the field holds it afterwards, and
    the field is marked touched. *)
Theorem track_pointer_down_falls_back_to_first_thumb
    (s : Slider) (e : MouseEvent) (rect : DOMRect.t) :
  trackRef s = Some rect -> isMutable s = true -> thumbs s <> [] ->
  let target := getValueForPagePosition s (Coordinate.mk (clientX e) (clientY e)) in
  (forall th, In th (thumbs s) -> contains (getThumbRange s th) target = false) \/
  (forall k, (k < List.length (thumbs s))%nat ->
     isNullOrUndefined (getThumbValue s (Z.of_nat k)) = true) ->
  onMousedown e s = setTouched true (setThumbValue 0 target s) /\
  getThumbValue (onMousedown e s) 0 = num target /\
  touched (onMousedown e s) = true /\
  calls (onMousedown e s) =
    SetTouched true :: UpdateValidity :: SetValue (fieldValue (onMousedown e s)) :: calls s.
Proof.
  intros Ht Hm _ target Hnone.
  assert (Hidx : Candidate.idx (closest s target) = 0).
  { destruct (closest_spec s target)
      as [[Hr _] | (k & th & d & _ & Hc & _)].
    - now rewrite Hr.
    - exfalso. destruct Hc as (th' & v & Hnth & Hin & Hv & _).
      destruct Hnone as [Hout | Hunset].
      + rewrite (Hout th') in Hin; [discriminate|].
        eapply nth_error_In; eassumption.
      + assert (Hk : (k < List.length (thumbs s))%nat).
        { apply nth_error_Some. congruence. }
        specialize (Hunset k Hk). rewrite Hv in Hunset. discriminate. }
  assert (E : onMousedown e s = setTouched true (setThumbValue 0 target s)).
  { rewrite (onMousedown_commits s e rect Ht Hm). cbv zeta.
    unfold target in Hidx. now rewrite Hidx. }
  rewrite E. split; [reflexivity|].
  split.
  { unfold getThumbValue, setThumbValue. rewrite Hm. simpl.
    destruct (List.length (thumbs s) <=? 1)%nat; simpl; [reflexivity|].
    now destruct (filter _ _). }
  split; [reflexivity|].
  unfold setThumbValue. rewrite Hm. simpl.
  destruct (List.length (thumbs s) <=? 1)%nat; reflexivity.
Qed.

Lemma track_pointer_down_falls_back_to_first_thumb_witness :
  thumbs unset_slider <> [] /\
  onMousedown click_at_30 unset_slider =
    setTouched true
      (setThumbValue 0
         (getValueForPagePosition unset_slider
            (Coordinate.mk (clientX click_at_30) (clientY click_at_30)))
         unset_slider) /\
  getThumbValue (onMousedown click_at_30 unset_slider) 0
    = num (getValueForPagePosition unset_slider
             (Coordinate.mk (clientX click_at_30) (clientY click_at_30))) /\
  touched (onMousedown click_at_30 unset_slider) = true /\
  calls (onMousedown click_at_30 unset_slider) =
    SetTouched true :: UpdateValidity
      :: SetValue (fieldValue (onMousedown click_at_30 unset_slider))
      :: calls unset_slider.
Proof.
  split; [discriminate|].
  apply (track_pointer_down_falls_back_to_first_thumb unset_slider click_at_30 track100).
  - reflexivity.
  - reflexivity.
  - discriminate.
  - right. intros k Hk. destruct k as [|[|k]]; [reflexivity|reflexivity|].
    simpl in Hk. lia.
Defined.

(** ** Committing a thumb value *)

(** C8. On a mutable slider whose registry holds at most one thumb,
    [setThumbValue(0, x)] leaves the field holding the number [x] itself,
    not the one-element array [[x]]. *)
Theorem single_thumb_commit_keeps_scalar_shape (s : Slider) (x : number) :
  isMutable s = true -> (List.length (thumbs s) <= 1)%nat ->
  fieldValue (setThumbValue 0 x s) = Scalar (num x) /\
  fieldValue (setThumbValue 0 x s) <> Arr [num x].
Proof.
  intros Hm Hlen. unfold setThumbValue. rewrite Hm. simpl.
  apply Nat.leb_le in Hlen. rewrite Hlen. simpl.
  split; [reflexivity|discriminate].
Qed.

Lemma single_thumb_commit_keeps_scalar_shape_witness :
  fieldValue (setThumbValue 0 (Num.of_Z 7) unmounted_slider) = Scalar (num (Num.of_Z 7)) /\
  fieldValue (setThumbValue 0 (Num.of_Z 7) unmounted_slider) <> Arr [num (Num.of_Z 7)].
Proof.
  apply (single_thumb_commit_keeps_scalar_shape unmounted_slider (Num.of_Z 7)).
  - reflexivity.
  - simpl. lia.
Defined.

(** C9. On a slider that is disabled or readonly, [setThumbValue] and the
    track's [onMousedown] return without doing anything: the whole state,
    with the field value, the touched flag and the record of calls on the
    field service, is as before. *)
Theorem non_mutable_slider_ignores_interaction
    (s : Slider) (i : Z) (value : number) (e : MouseEvent) :
  isDisabled s = true \/ isReadonly s = true ->
  setThumbValue i value s = s /\ onMousedown e s = s.
Proof.
  intros H.
  assert (Hm : isMutable s = false).
  { unfold isMutable. destruct H as [-> | ->]; simpl; [reflexivity|].
    apply andb_false_r. }
  unfold onMousedown, setThumbValue. rewrite Hm. simpl.
  split; [reflexivity|]. destruct (trackRef s); reflexivity.
Qed.

Lemma non_mutable_slider_ignores_interaction_witness :
  setThumbValue 0 (Num.of_Z 3) disabled_slider = disabled_slider /\
  onMousedown click_at_30 disabled_slider = disabled_slider.
Proof.
  apply (non_mutable_slider_ignores_interaction disabled_slider 0 (Num.of_Z 3) click_at_30).
  left. reflexivity.
Defined.

(** ** Mapping a page position to a value *)

(** C10. While the track element is not mounted, [getValueForPagePosition]
    returns [0] for every coordinate. *)
Theorem unmeasured_track_maps_to_zero (s : Slider) (c : Coordinate.t) :
  trackRef s = None -> getValueForPagePosition s c = Num.of_Z 0.
Proof.
  intros H. unfold getValueForPagePosition. now rewrite H.
Qed.

Lemma unmeasured_track_maps_to_zero_witness :
  getValueForPagePosition unmounted_slider (Coordinate.mk (Num.of_Z 30) (Num.of_Z 10))
    = Num.of_Z 0.
Proof.
  apply (unmeasured_track_maps_to_zero unmounted_slider). reflexivity.
Defined.

(** ** Array reads and writes *)

Lemma nth_list_set_eq (a : list jsval) (n : nat) (v : jsval) :
  nth n (list_set a n v) undefined = v.
Proof.
  revert a. induction n as [|n IH]; intros [|x rest]; simpl; auto.
Qed.

Lemma nth_list_set_neq (a : list jsval) (n m : nat) (v : jsval) :
  m <> n -> nth m (list_set a n v) undefined = nth m a undefined.
Proof.
  revert a m. induction n as [|n IH]; intros [|x rest] [|m] Hne; simpl;
    try congruence; try reflexivity.
  - now destruct m.
  - rewrite IH by congruence. now destruct m.
  - apply IH. congruence.
Qed.

(** Reading the field after [a[i] = v] was written back. *)
Lemma array_get_set_eq (s : Slider) (a : list jsval) (i : Z) (v : jsval) :
  fieldValue s = array_set a i v -> 0 <= i -> getThumbValue s i = v.
Proof.
  intros Hf Hi. unfold getThumbValue. rewrite Hf. unfold array_set, array_get.
  assert (E : (i <? 0) = false) by (apply Z.ltb_ge; lia).
  rewrite E. apply nth_list_set_eq.
Qed.

Lemma array_get_set_neq (s : Slider) (a : list jsval) (i j : Z) (v : jsval) :
  fieldValue s = array_set a i v -> j <> i -> getThumbValue s j = array_get a j.
Proof.
  intros Hf Hne. unfold getThumbValue. rewrite Hf. unfold array_set.
  destruct (i <? 0) eqn:Ei.
  - destruct (i =? -1) eqn:E1; [|reflexivity].
    apply Z.eqb_eq in E1. subst i.
    assert (E : (j =? -1) = false) by (apply Z.eqb_neq; exact Hne).
    now rewrite E.
  - unfold array_get. destruct (j <? 0) eqn:Ej; [reflexivity|].
    apply nth_list_set_neq. apply Z.ltb_ge in Ej, Ei. lia.
Qed.

Lemma filter_all_set (a : list jsval) :
  (forall v, In v a -> isNullOrUndefined v = false) ->
  filter (fun v => negb (isNullOrUndefined v)) a = a.
Proof.
  induction a as [|x rest IH]; intros H; simpl; [reflexivity|].
  rewrite (H x (or_introl eq_refl)). simpl. f_equal.
  apply IH. intros v Hv. apply H. now right.
Qed.

Lemma array_get_beyond (a : list jsval) (i : Z) :
  Z.of_nat (List.length a) <= i -> array_get a i = undefined.
Proof.
  intros H. unfold array_get. destruct (i <? 0); [reflexivity|].
  apply nth_overflow. lia.
Qed.

Lemma array_get_map_num (vs : list number) (k : nat) :
  (k < List.length vs)%nat ->
  array_get (map num vs) (Z.of_nat k) = num (nth k vs NaN).
Proof.
  intros Hk. unfold array_get.
  assert (E : (Z.of_nat k <? 0) = false) by (apply Z.ltb_ge; lia).
  rewrite E, Nat2Z.id.
  rewrite (nth_indep _ undefined (num NaN)) by (now rewrite length_map).
  apply (map_nth num).
Qed.

(** The statement of C2 fails where the array has an empty slot.  With two
    thumbs and no value yet, the second thumb commits [8] and the field
    holds a two-position array, position 0 empty; the first thumb then
    commits [3]: the empty slot is dropped, [8] moves down to position 0 and
    is overwritten, so the field holds [[3]] and position 1 has lost its
    value. *)
Lemma commit_drops_value_after_gap :
  isMutable gap_slider = true /\
  List.length (thumbs gap_slider) = 2%nat /\
  fieldValue gap_slider = Arr [undefined; num (Num.of_Z 8)] /\
  getThumbValue gap_slider 1 = num (Num.of_Z 8) /\
  fieldValue (setThumbValue 0 (Num.of_Z 3) gap_slider) = Arr [num (Num.of_Z 3)] /\
  getThumbValue (setThumbValue 0 (Num.of_Z 3) gap_slider) 1 = undefined.
Proof.
  repeat split; vm_compute; reflexivity.
Qed.

(** C2, amended.  On a mutable slider with at least two registered thumbs,
    [setThumbValue(index, x)] takes the field value as an array (a scalar
    becomes its only element), removes the entries that are [null] or
    [undefined], so that later entries move down, writes [x] at position
    [index] (a write past the end extends the array with empty slots, a
    write at [-1] adds a property and leaves the elements alone), writes the
    array back with [setValue] and then calls [updateValidity].  Position
    [index] then reads [x]; when the array held no unset entry, every other
    position reads as before. *)
Theorem commit_compacts_then_writes_position (s : Slider) (i : Z) (x : number) :
  isMutable s = true -> (2 <= List.length (thumbs s))%nat ->
  let kept := filter (fun v => negb (isNullOrUndefined v))
                (normalizeArrayable (fieldValue s)) in
  let s' := setThumbValue i x s in
  fieldValue s' = array_set kept i (num x) /\
  calls s' = UpdateValidity :: SetValue (fieldValue s') :: calls s /\
  (0 <= i -> getThumbValue s' i = num x) /\
  (forall a, fieldValue s = Arr a ->
     (forall v, In v a -> isNullOrUndefined v = false) ->
     forall j, j <> i -> getThumbValue s' j = getThumbValue s j).
Proof.
  intros Hm Hlen kept s'.
  assert (E : s' = updateValidity (setValue (array_set kept i (num x)) s)).
  { unfold s', setThumbValue. rewrite Hm. simpl.
    destruct (List.length (thumbs s) <=? 1)%nat eqn:El; [|reflexivity].
    apply Nat.leb_le in El. lia. }
  assert (Ef : fieldValue s' = array_set kept i (num x)) by (now rewrite E).
  split; [exact Ef|]. split; [now rewrite E|]. split.
  - intros Hi. now apply (array_get_set_eq s' kept).
  - intros a Ha Hset j Hj. rewrite (array_get_set_neq s' kept i j _ Ef Hj).
    unfold kept, getThumbValue. rewrite Ha. cbn [normalizeArrayable].
    now rewrite (filter_all_set a Hset).
Qed.

Lemma commit_compacts_then_writes_position_witness :
  fieldValue (setThumbValue 0 (Num.of_Z 3) scenario) =
    array_set
      (filter (fun v => negb (isNullOrUndefined v))
         (normalizeArrayable (fieldValue scenario))) 0 (num (Num.of_Z 3)) /\
  calls (setThumbValue 0 (Num.of_Z 3) scenario) =
    UpdateValidity :: SetValue (fieldValue (setThumbValue 0 (Num.of_Z 3) scenario))
      :: calls scenario /\
  (0 <= 0 -> getThumbValue (setThumbValue 0 (Num.of_Z 3) scenario) 0 = num (Num.of_Z 3)) /\
  (forall a, fieldValue scenario = Arr a ->
     (forall v, In v a -> isNullOrUndefined v = false) ->
     forall j, j <> 0 ->
       getThumbValue (setThumbValue 0 (Num.of_Z 3) scenario) j = getThumbValue scenario j).
Proof.
  apply (commit_compacts_then_writes_position scenario 0 (Num.of_Z 3)).
  - reflexivity.
  - simpl. lia.
Defined.

(** ** The range of a thumb *)

(** The statement of C3 fails when the field value holds more positions than
    the registry holds thumbs.  After the second thumb of the scenario of §8
    is unmounted, the remaining thumb is at index 0 and no thumb follows it,
    yet its [max] is [8], the value still stored at position 1, and not the
    absolute maximum [10].  It fails for the first thumb too once a thumb
    that is no longer registered has committed a value: the write goes to
    the index [-1], and the first thumb, which no thumb precedes, gets that
    value, [4], as its [min] and not the absolute minimum [0]. *)
Lemma range_reads_value_without_thumb :
  (thumbs after_unmount = [thumbA] /\
   indexOf (thumbs after_unmount) thumbA = 0 /\
   fieldValue after_unmount = Arr [num (Num.of_Z 2); num (Num.of_Z 8)] /\
   ThumbRange.max (getThumbRange after_unmount thumbA) = Num.of_Z 8 /\
   ThumbRange.absoluteMax (getThumbRange after_unmount thumbA) = Num.of_Z 10 /\
   ThumbRange.max (getThumbRange after_unmount thumbA)
     <> ThumbRange.absoluteMax (getThumbRange after_unmount thumbA)) /\
  (thumbs stale_write_slider = [thumbA; thumbB] /\
   indexOf (thumbs stale_write_slider) thumbA = 0 /\
   fieldValue stale_write_slider
     = ArrMinusOne [num (Num.of_Z 2); num (Num.of_Z 8)] (num (Num.of_Z 4)) /\
   ThumbRange.min (getThumbRange stale_write_slider thumbA) = Num.of_Z 4 /\
   ThumbRange.absoluteMin (getThumbRange stale_write_slider thumbA) = Num.of_Z 0).
Proof.
  split.
  - repeat split; try (vm_compute; reflexivity).
    vm_compute. discriminate.
  - repeat split; vm_compute; reflexivity.
Qed.

(** C3, amended.  For a registered thumb at index [i], [getThumbRange]
    returns as [min] the value the field holds at position [i - 1], and the
    absolute minimum when that position is absent or unset, which is so for
    the first thumb unless the array holds a value under the key [-1], left
    by the commit of a thumb that is not registered; as [max] the value the
    field holds at position [i + 1],
    whether or not a thumb is registered there, and the absolute maximum when
    that position is absent or unset, which is so for the last thumb as long
    as the field holds no more positions than there are thumbs.  Both bounds
    are numbers: the absolute bounds never are [NaN], [null] or
    [undefined]. *)
Theorem thumb_range_from_neighbor_values (s : Slider) (t : ThumbRegistration) (i : Z) :
  indexOf (thumbs s) t = i -> 0 <= i ->
  let r := getThumbRange s t in
  let absoluteMin := ValueRange.min (getSliderRange s) in
  let absoluteMax := ValueRange.max (getSliderRange s) in
  ThumbRange.absoluteMin r = absoluteMin /\
  ThumbRange.absoluteMax r = absoluteMax /\
  absoluteMin <> NaN /\ absoluteMax <> NaN /\
  match getThumbValue s (i - 1) with
  | num v => ThumbRange.min r = v
  | _ => ThumbRange.min r = absoluteMin
  end /\
  match getThumbValue s (i + 1) with
  | num v => ThumbRange.max r = v
  | _ => ThumbRange.max r = absoluteMax
  end /\
  (i = 0 -> (forall a v, fieldValue s <> ArrMinusOne a v) ->
   ThumbRange.min r = absoluteMin) /\
  ((values_length s <= List.length (thumbs s))%nat ->
   Z.of_nat (List.length (thumbs s)) <= i + 1 ->
   ThumbRange.max r = absoluteMax).
Proof.
  intros Hidx Hi r absoluteMin absoluteMax.
  unfold r, getThumbRange. rewrite Hidx. simpl.
  split; [reflexivity|]. split; [reflexivity|].
  split; [apply NumFacts.falsy_or_not_NaN; discriminate|].
  split; [apply NumFacts.falsy_or_not_NaN; discriminate|].
  split; [destruct (getThumbValue s (i - 1)); reflexivity|].
  split; [destruct (getThumbValue s (i + 1)); reflexivity|].
  split.
  - intros -> Hplain. unfold getThumbValue, array_get. simpl.
    destruct (fieldValue s) as [v|a|a v]; try reflexivity.
    now destruct (Hplain a v).
  - intros Hlen Hlast.
    assert (E : getThumbValue s (i + 1) = undefined).
    { unfold getThumbValue, values_length in *.
      destruct (fieldValue s) as [v|a|a v].
      - assert (E0 : (i + 1 =? 0) = false) by (apply Z.eqb_neq; lia).
        now rewrite E0.
      - apply array_get_beyond. lia.
      - assert (E0 : (i + 1 =? -1) = false) by (apply Z.eqb_neq; lia).
        rewrite E0. apply array_get_beyond. lia. }
    now rewrite E.
Qed.

Lemma thumb_range_from_neighbor_values_witness :
  ThumbRange.absoluteMin (getThumbRange scenario thumbB)
    = ValueRange.min (getSliderRange scenario) /\
  ThumbRange.absoluteMax (getThumbRange scenario thumbB)
    = ValueRange.max (getSliderRange scenario) /\
  ValueRange.min (getSliderRange scenario) <> NaN /\
  ValueRange.max (getSliderRange scenario) <> NaN /\
  match getThumbValue scenario (1 - 1) with
  | num v => ThumbRange.min (getThumbRange scenario thumbB) = v
  | _ => ThumbRange.min (getThumbRange scenario thumbB)
         = ValueRange.min (getSliderRange scenario)
  end /\
  match getThumbValue scenario (1 + 1) with
  | num v => ThumbRange.max (getThumbRange scenario thumbB) = v
  | _ => ThumbRange.max (getThumbRange scenario thumbB)
         = ValueRange.max (getSliderRange scenario)
  end /\
  (1 = 0 -> (forall a v, fieldValue scenario <> ArrMinusOne a v) ->
   ThumbRange.min (getThumbRange scenario thumbB)
     = ValueRange.min (getSliderRange scenario)) /\
  ((values_length scenario <= List.length (thumbs scenario))%nat ->
   Z.of_nat (List.length (thumbs scenario)) <= 1 + 1 ->
   ThumbRange.max (getThumbRange scenario thumbB)
     = ValueRange.max (getSliderRange scenario)).
Proof.
  apply (thumb_range_from_neighbor_values scenario thumbB 1).
  - reflexivity.
  - lia.
Defined.

Lemma findIndex_from_bound {A : Type} (p : A -> bool) (a : list A) (i0 : Z) :
  findIndex_from p a i0 = -1 \/
  i0 <= findIndex_from p a i0 < i0 + Z.of_nat (List.length a).
Proof.
  revert i0. induction a as [|x rest IH]; intros i0; simpl; [now left|].
  destruct (p x); [right; lia|].
  destruct (IH (i0 + 1)) as [E | B]; [now left | right; lia].
Qed.

(** The index a registration commits at is [-1] at least, so that the
    engine writes at no index below [-1]. *)
Lemma getThumbIndex_lower_bound (id0 : string) (s : Slider) :
  -1 <= getThumbIndex id0 s.
Proof.
  unfold getThumbIndex, findIndex.
  destruct (findIndex_from_bound (fun t => String.eqb (id t) id0) (thumbs s) 0); lia.
Qed.

(** The statement of C7 fails in three ways.  A value lies outside the
    absolute bounds: with bounds [{0, 10}] and two thumbs at [[-5, 8]], which
    are in order, the range of thumb 0 has [min = 0], above the value [-5] of
    the thumb.  The field holds a value past the last thumb: two thumbs at
    [2] and [9], in order and within [{0, 10}], and a third value [8] left by
    a thumb that was unmounted, which the last thumb gets as its [max], below
    its value [9].  The array holds a value under [-1]: two thumbs at [2] and
    [8] and the [4] committed by a thumb that is not registered, which the
    first thumb gets as its [min], above its value [2]. *)
Lemma range_misses_value_below_minimum :
  (thumb_values below_min_slider [Num.of_Z (-5); Num.of_Z 8] /\
   Num.le (Num.of_Z (-5)) (Num.of_Z 8) = true /\
   indexOf (thumbs below_min_slider) thumbA = 0 /\
   ThumbRange.min (getThumbRange below_min_slider thumbA) = Num.of_Z 0 /\
   Num.le (ThumbRange.min (getThumbRange below_min_slider thumbA)) (Num.of_Z (-5))
     = false) /\
  (thumbs extra_value_slider = [thumbA; thumbB] /\
   fieldValue extra_value_slider
     = Arr [num (Num.of_Z 2); num (Num.of_Z 9); num (Num.of_Z 8)] /\
   getThumbValue extra_value_slider 0 = num (Num.of_Z 2) /\
   getThumbValue extra_value_slider 1 = num (Num.of_Z 9) /\
   indexOf (thumbs extra_value_slider) thumbB = 1 /\
   ThumbRange.max (getThumbRange extra_value_slider thumbB) = Num.of_Z 8 /\
   Num.le (Num.of_Z 9) (ThumbRange.max (getThumbRange extra_value_slider thumbB))
     = false) /\
  (thumbs stale_write_slider = [thumbA; thumbB] /\
   getThumbValue stale_write_slider 0 = num (Num.of_Z 2) /\
   getThumbValue stale_write_slider 1 = num (Num.of_Z 8) /\
   getThumbValue stale_write_slider (-1) = num (Num.of_Z 4) /\
   indexOf (thumbs stale_write_slider) thumbA = 0 /\
   ThumbRange.min (getThumbRange stale_write_slider thumbA) = Num.of_Z 4 /\
   Num.le (ThumbRange.min (getThumbRange stale_write_slider thumbA)) (Num.of_Z 2)
     = false).
Proof.
  split; [|split].
  - split; [split; [reflexivity | left; reflexivity]|].
    repeat split; vm_compute; reflexivity.
  - repeat split; vm_compute; reflexivity.
  - repeat split; vm_compute; reflexivity.
Qed.

(** C7, amended.  When the field holds exactly the values of the [N]
    registered thumbs, one per thumb (an array of [N] numbers with nothing
    past the last thumb and nothing under [-1], or the number itself for a
    single thumb), and these values [v_0 <= v_1 <= ... <= v_(N-1)] all lie
    within the absolute bounds of the slider, the range computed for each
    thumb [i] satisfies [absoluteMin <= min <= v_i <= max <= absoluteMax]. *)
Theorem thumb_range_contains_value (s : Slider) (vs : list number)
    (t : ThumbRegistration) (i : nat) :
  thumb_values s vs ->
  (forall k, (S k < List.length vs)%nat ->
     Num.le (nth k vs NaN) (nth (S k) vs NaN) = true) ->
  (forall k, (k < List.length vs)%nat ->
     Num.le (ValueRange.min (getSliderRange s)) (nth k vs NaN) = true /\
     Num.le (nth k vs NaN) (ValueRange.max (getSliderRange s)) = true) ->
  indexOf (thumbs s) t = Z.of_nat i ->
  let r := getThumbRange s t in
  ThumbRange.absoluteMin r = ValueRange.min (getSliderRange s) /\
  ThumbRange.absoluteMax r = ValueRange.max (getSliderRange s) /\
  Num.le (ThumbRange.absoluteMin r) (ThumbRange.min r) = true /\
  Num.le (ThumbRange.min r) (nth i vs NaN) = true /\
  Num.le (nth i vs NaN) (ThumbRange.max r) = true /\
  Num.le (ThumbRange.max r) (ThumbRange.absoluteMax r) = true.
Proof.
  intros [Hlen Hshape] Hsorted Hbounds Hidx r.
  assert (Hi : (i < List.length vs)%nat).
  { rewrite Hlen. unfold indexOf, findIndex in Hidx.
    destruct (findIndex_from_bound (same_object t) (thumbs s) 0); lia. }
  destruct (Hbounds i Hi) as [Hlo Hhi].
  assert (Hmin : ValueRange.min (getSliderRange s) <> NaN)
    by (apply NumFacts.falsy_or_not_NaN; discriminate).
  assert (Hmax : ValueRange.max (getSliderRange s) <> NaN)
    by (apply NumFacts.falsy_or_not_NaN; discriminate).
  (* the value before position [i] *)
  assert (Hprev :
    (i = 0%nat /\ getThumbValue s (Z.of_nat i - 1) = undefined) \/
    (exists k, i = S k /\ getThumbValue s (Z.of_nat i - 1) = num (nth k vs NaN))).
  { destruct i as [|k].
    - left. split; [reflexivity|]. unfold getThumbValue, array_get. simpl.
      destruct Hshape as [-> | (v & _ & ->)]; reflexivity.
    - right. exists k. split; [reflexivity|].
      replace (Z.of_nat (S k) - 1) with (Z.of_nat k) by lia.
      unfold getThumbValue. destruct Hshape as [-> | (v & -> & _)].
      + apply array_get_map_num. lia.
      + simpl in Hi. lia. }
  (* the value after position [i] *)
  assert (Hnext :
    (S i = List.length vs /\ getThumbValue s (Z.of_nat i + 1) = undefined) \/
    ((S i < List.length vs)%nat /\
     getThumbValue s (Z.of_nat i + 1) = num (nth (S i) vs NaN))).
  { destruct (Nat.eq_dec (S i) (List.length vs)) as [E | NE].
    - left. split; [exact E|]. unfold getThumbValue.
      destruct Hshape as [-> | (v & _ & ->)].
      + apply array_get_beyond. rewrite length_map. lia.
      + assert (E0 : (Z.of_nat i + 1 =? 0) = false) by (apply Z.eqb_neq; lia).
        now rewrite E0.
    - right. split; [lia|].
      replace (Z.of_nat i + 1) with (Z.of_nat (S i)) by lia.
      unfold getThumbValue. destruct Hshape as [-> | (v & -> & _)].
      + apply array_get_map_num. lia.
      + simpl in Hi, NE. lia. }
  unfold r, getThumbRange. rewrite Hidx. simpl.
  split; [reflexivity|]. split; [reflexivity|].
  destruct Hprev as [[-> ->] | (k & -> & ->)];
    destruct Hnext as [[Hlast ->] | [Hmore ->]]; simpl.
  - split; [now apply NumFacts.le_refl|]. split; [exact Hlo|].
    split; [exact Hhi|]. now apply NumFacts.le_refl.
  - split; [now apply NumFacts.le_refl|]. split; [exact Hlo|].
    split; [apply Hsorted; lia|]. apply (Hbounds 1%nat). lia.
  - split; [apply (Hbounds k); lia|]. split; [apply Hsorted; lia|].
    split; [exact Hhi|]. now apply NumFacts.le_refl.
  - split; [apply (Hbounds k); lia|]. split; [apply Hsorted; lia|].
    split; [apply Hsorted; lia|]. apply (Hbounds (S (S k))). lia.
Qed.

Lemma thumb_range_contains_value_witness :
  let r := getThumbRange scenario thumbB in
  ThumbRange.absoluteMin r = ValueRange.min (getSliderRange scenario) /\
  ThumbRange.absoluteMax r = ValueRange.max (getSliderRange scenario) /\
  Num.le (ThumbRange.absoluteMin r) (ThumbRange.min r) = true /\
  Num.le (ThumbRange.min r) (nth 1 [Num.of_Z 2; Num.of_Z 8] NaN) = true /\
  Num.le (nth 1 [Num.of_Z 2; Num.of_Z 8] NaN) (ThumbRange.max r) = true /\
  Num.le (ThumbRange.max r) (ThumbRange.absoluteMax r) = true.
Proof.
  apply (thumb_range_contains_value scenario [Num.of_Z 2; Num.of_Z 8] thumbB 1).
  - split; [reflexivity | left; reflexivity].
  - intros k Hk. destruct k as [|k]; [reflexivity | simpl in Hk; lia].
  - intros k Hk. destruct k as [|[|k]]; [split; reflexivity | split; reflexivity |].
    simpl in Hk. lia.
  - reflexivity.
Defined.

(** ** The step *)

Lemma getValueForPagePosition_step (s : Slider) (c : Coordinate.t) :
  getValueForPagePosition s c
    = getValueForPagePosition (with_step (Some (getSliderStep s)) s) c.
Proof.
  unfold getValueForPagePosition, getSliderStep, with_step, getOrientation, dir_is_rtl.
  simpl. destruct (trackRef s); [|reflexivity].
  f_equal. unfold falsy_or.
  destruct (Props.step (props s)) as [n|]; [|reflexivity].
  destruct (Num.truthy n) eqn:E; [now rewrite E | reflexivity].
Qed.

(** The statement of C5 fails for a negative step: with a step of [-2] the
    step reported to the thumbs is [-2], and a pointer position that maps to
    [3] under a step of [1] maps to [4]. *)
Lemma negative_step_is_kept :
  Props.step (props negative_step_slider) = Some (Num.of_Z (-2)) /\
  getSliderStep negative_step_slider = Num.of_Z (-2) /\
  getSliderStep negative_step_slider <> Num.of_Z 1 /\
  getValueForPagePosition (with_step (Some (Num.of_Z 1)) negative_step_slider)
    (Coordinate.mk (Num.of_Z 34) (Num.of_Z 10)) = Num.of_Z 3 /\
  getValueForPagePosition negative_step_slider
    (Coordinate.mk (Num.of_Z 34) (Num.of_Z 10)) = Num.of_Z 4.
Proof.
  repeat split; try (vm_compute; reflexivity).
  vm_compute. discriminate.
Qed.

(** C5, amended.  A step that is not given, is [NaN] or is zero is replaced
    by [1] wherever it is used: the step reported to the thumbs is [1] and
    the mapping of a position quantizes as under a step of [1].  A negative
    step is not replaced: it is the step reported to the thumbs. *)
Theorem falsy_step_is_one :
  (forall s : Slider,
     Props.step (props s) = None \/
     Props.step (props s) = Some NaN \/
     (exists q, Props.step (props s) = Some (Fin q) /\ (q == 0)%Q) ->
     getSliderStep s = Num.of_Z 1 /\
     forall c, getValueForPagePosition s c
               = getValueForPagePosition (with_step (Some (Num.of_Z 1)) s) c)
  /\
  (forall (s : Slider) (q : Q),
     Props.step (props s) = Some (Fin q) -> (q < 0)%Q ->
     getSliderStep s = Fin q).
Proof.
  split.
  - intros s H.
    assert (E : getSliderStep s = Num.of_Z 1).
    { unfold getSliderStep, falsy_or.
      destruct H as [-> | [-> | (q & -> & Hq)]]; try reflexivity.
      assert (Hc : (q ?= 0)%Q = Eq) by (apply Qeq_alt; exact Hq).
      unfold Num.truthy, Num.Qsgn. now rewrite Hc. }
    split; [exact E|]. intros c.
    rewrite (getValueForPagePosition_step s c). now rewrite E.
  - intros s q Hs Hq. unfold getSliderStep, falsy_or. rewrite Hs.
    assert (Hc : (q ?= 0)%Q = Lt) by (apply Qlt_alt; exact Hq).
    unfold Num.truthy, Num.Qsgn. now rewrite Hc.
Qed.

Lemma falsy_step_is_one_witness :
  (getSliderStep (with_step (Some (Fin 0)) scenario) = Num.of_Z 1 /\
   forall c, getValueForPagePosition (with_step (Some (Fin 0)) scenario) c
             = getValueForPagePosition
                 (with_step (Some (Num.of_Z 1)) (with_step (Some (Fin 0)) scenario)) c)
  /\ getSliderStep negative_step_slider = Fin (-2 # 1).
Proof.
  split.
  - apply (proj1 falsy_step_is_one (with_step (Some (Fin 0)) scenario)).
    right. right. exists 0%Q. split; reflexivity.
  - apply (proj2 falsy_step_is_one negative_step_slider (-2 # 1)%Q).
    + reflexivity.
    + reflexivity.
Defined.

(** ** Rounding to binary64 keeps the order *)

Module Rounding.

Local Open Scope Q_scope.

Lemma pow2_pos (e : Z) : 0 < 2 ^ e.
Proof. apply Qpower_0_lt. reflexivity. Qed.

Lemma pow2_le (a b : Z) : (a <= b)%Z -> 2 ^ a <= 2 ^ b.
Proof. intros H. apply Qpower_le_compat_l; [exact H | discriminate]. Qed.

Lemma pow2_plus (a b : Z) : 2 ^ (a + b) == 2 ^ a * 2 ^ b.
Proof. apply Qpower_plus. discriminate. Qed.

Lemma pow2_Z (k : Z) : (0 <= k)%Z -> inject_Z (2 ^ k) == 2 ^ k.
Proof. intros H. now rewrite Zpower_Qpower. Qed.

Lemma round_half_even_bounds (x : Q) :
  (Qfloor x <= Num.round_half_even x <= Qfloor x + 1)%Z.
Proof.
  unfold Num.round_half_even.
  destruct (x - inject_Z (Qfloor x) ?= 1 # 2); [|lia|lia].
  destruct (Z.even (Qfloor x)); lia.
Qed.

Lemma round_half_even_Z (z : Z) : Num.round_half_even (inject_Z z) = z.
Proof.
  unfold Num.round_half_even. rewrite Qfloor_Z.
  assert (E : (inject_Z z - inject_Z z ?= 1 # 2) = Lt).
  { assert (Z0 : inject_Z z - inject_Z z == 0) by ring. now rewrite Z0. }
  now rewrite E.
Qed.

Lemma round_half_even_le (x y : Q) :
  x <= y -> (Num.round_half_even x <= Num.round_half_even y)%Z.
Proof.
  intros H. pose proof (Qfloor_resp_le x y H) as Hf.
  pose proof (round_half_even_bounds x) as Bx.
  pose proof (round_half_even_bounds y) as By.
  destruct (Z.eq_dec (Qfloor x) (Qfloor y)) as [E | NE]; [|lia].
  unfold Num.round_half_even. rewrite <- E.
  destruct (Qcompare_spec (x - inject_Z (Qfloor x)) (1 # 2)) as [Hx|Hx|Hx];
    destruct (Qcompare_spec (y - inject_Z (Qfloor x)) (1 # 2)) as [Hy|Hy|Hy];
    try lia; try lra; destruct (Z.even (Qfloor x)); lia.
Qed.

(** [ilog2 q] is the exponent of the power of two at or below [q]. *)
Lemma ilog2_spec (q : Q) :
  0 < q -> 2 ^ Num.ilog2 q <= q /\ q < 2 ^ (Num.ilog2 q + 1).
Proof.
  intros Hq. unfold Num.ilog2. destruct (Qle_bool 1 q) eqn:E.
  - apply Qle_bool_iff in E.
    assert (Hf : (1 <= Qfloor q)%Z).
    { change 1%Z with (Qfloor 1). now apply Qfloor_resp_le. }
    destruct (Z.log2_spec (Qfloor q)) as [Hlo Hhi]; [lia|].
    pose proof (Z.log2_nonneg (Qfloor q)) as Hk.
    split.
    + rewrite <- pow2_Z by exact Hk.
      apply Qle_trans with (inject_Z (Qfloor q));
        [now rewrite <- Zle_Qle | apply Qfloor_le].
    + rewrite <- pow2_Z by lia.
      apply Qlt_le_trans with (inject_Z (Qfloor q + 1)); [apply Qlt_floor|].
      rewrite <- Zle_Qle. unfold Z.succ in Hhi. lia.
  - assert (Hq1 : q < 1).
    { destruct (Qlt_le_dec q 1) as [L|L]; [exact L|].
      apply Qle_bool_iff in L. congruence. }
    assert (Hinv : q * / q == 1) by (apply Qmult_inv_r; lra).
    assert (Hi1 : 1 < / q).
    { assert (0 < / q) by (apply Qinv_lt_0_compat; exact Hq). nra. }
    set (c := Qceiling (/ q)).
    assert (Hc : (1 < c)%Z).
    { assert (L : inject_Z 1 < inject_Z c).
      { apply Qlt_le_trans with (/ q); [exact Hi1 | apply Qle_ceiling]. }
      rewrite <- Zlt_Qlt in L. exact L. }
    destruct (Z.log2_up_spec c Hc) as [Hlo Hhi].
    pose proof (Z.log2_up_nonneg c) as Hk.
    set (k := Z.log2_up c) in *.
    assert (Hk1 : (1 <= k)%Z).
    { destruct (Z.eq_dec k 0) as [K0|K0]; [|lia].
      rewrite K0 in Hhi. simpl in Hhi. lia. }
    split.
    + rewrite Qpower_opp.
      assert (P : / q <= 2 ^ k).
      { apply Qle_trans with (inject_Z c); [apply Qle_ceiling|].
        rewrite <- pow2_Z by exact Hk. now rewrite <- Zle_Qle. }
      pose proof (pow2_pos k) as Pp.
      assert (Pi : 2 ^ k * / 2 ^ k == 1) by (apply Qmult_inv_r; lra).
      assert (0 < / 2 ^ k) by (apply Qinv_lt_0_compat; exact Pp).
      nra.
    + replace (- k + 1)%Z with (- (k - 1))%Z by lia. rewrite Qpower_opp.
      assert (P : 2 ^ (k - 1) < / q).
      { apply Qle_lt_trans with (inject_Z (c - 1)).
        - rewrite <- pow2_Z by lia. rewrite <- Zle_Qle.
          replace (Z.pred k) with (k - 1)%Z in Hlo by lia. lia.
        - apply Qceiling_lt. }
      pose proof (pow2_pos (k - 1)) as Pp.
      assert (Pi : 2 ^ (k - 1) * / 2 ^ (k - 1) == 1) by (apply Qmult_inv_r; lra).
      assert (0 < / 2 ^ (k - 1)) by (apply Qinv_lt_0_compat; exact Pp).
      nra.
Qed.

Lemma ilog2_mono (p q : Q) : 0 < p -> p <= q -> (Num.ilog2 p <= Num.ilog2 q)%Z.
Proof.
  intros Hp Hpq.
  destruct (ilog2_spec p Hp) as [Lp _].
  destruct (ilog2_spec q) as [_ Uq]; [lra|].
  destruct (Z_le_gt_dec (Num.ilog2 p) (Num.ilog2 q)) as [L|G]; [exact L|].
  exfalso.
  assert (2 ^ (Num.ilog2 q + 1) <= 2 ^ Num.ilog2 p) by (apply pow2_le; lia).
  lra.
Qed.

(** On one grid, rounding to the nearest multiple keeps the order. *)
Lemma same_grid_mono (p q : Q) (e : Z) :
  p <= q ->
  inject_Z (Num.round_half_even (p / 2 ^ e)) * 2 ^ e
    <= inject_Z (Num.round_half_even (q / 2 ^ e)) * 2 ^ e.
Proof.
  intros H. pose proof (pow2_pos e) as Pe.
  apply Qmult_le_compat_r; [|lra].
  rewrite <- Zle_Qle. apply round_half_even_le.
  unfold Qdiv. apply Qmult_le_compat_r; [exact H|].
  apply Qlt_le_weak. now apply Qinv_lt_0_compat.
Qed.

(** A number below [2 ^ (e + 53)] rounds, on the grid of [2 ^ e], to at
    most that power; a number from [2 ^ (e + 52)] on to at least this one. *)
Lemma grid_upper (p : Q) (e : Z) :
  p <= 2 ^ (e + 53) ->
  inject_Z (Num.round_half_even (p / 2 ^ e)) * 2 ^ e <= 2 ^ (e + 53).
Proof.
  intros H. pose proof (pow2_pos e) as Pe.
  rewrite (pow2_plus e 53) in *.
  assert (L : p / 2 ^ e <= inject_Z (2 ^ 53)).
  { apply Qle_shift_div_r; [exact Pe|]. rewrite pow2_Z by lia. lra. }
  apply round_half_even_le in L. rewrite round_half_even_Z in L.
  rewrite Zle_Qle in L. rewrite pow2_Z in L by lia. nra.
Qed.

Lemma grid_lower (q : Q) (e : Z) :
  2 ^ (e + 52) <= q ->
  2 ^ (e + 52) <= inject_Z (Num.round_half_even (q / 2 ^ e)) * 2 ^ e.
Proof.
  intros H. pose proof (pow2_pos e) as Pe.
  rewrite (pow2_plus e 52) in *.
  assert (L : inject_Z (2 ^ 52) <= q / 2 ^ e).
  { apply Qle_shift_div_l; [exact Pe|]. rewrite pow2_Z by lia. lra. }
  apply round_half_even_le in L. rewrite round_half_even_Z in L.
  rewrite Zle_Qle in L. rewrite pow2_Z in L by lia. nra.
Qed.

Lemma nearest_mono (p q : Q) : 0 < p -> p <= q -> Num.nearest p <= Num.nearest q.
Proof.
  intros Hp Hpq. unfold Num.nearest, Num.ulp_exponent.
  pose proof (ilog2_mono p q Hp Hpq) as Hlog.
  destruct (ilog2_spec p Hp) as [_ Up].
  destruct (ilog2_spec q) as [Lq _]; [lra|].
  set (e1 := Z.max (-1074) (Num.ilog2 p - 52)).
  set (e2 := Z.max (-1074) (Num.ilog2 q - 52)).
  assert (He : (e1 <= e2)%Z) by (unfold e1, e2; lia).
  destruct (Z.eq_dec e1 e2) as [E | NE].
  - rewrite E. now apply same_grid_mono.
  - apply Qle_trans with (2 ^ (e1 + 53)).
    + apply grid_upper.
      apply Qle_trans with (2 ^ (Num.ilog2 p + 1)); [lra|].
      apply pow2_le. unfold e1. lia.
    + apply Qle_trans with (2 ^ (e2 + 52)); [apply pow2_le; lia|].
      apply grid_lower.
      replace (e2 + 52)%Z with (Num.ilog2 q) by (unfold e1, e2 in *; lia).
      exact Lq.
Qed.

Lemma nearest_nonneg (q : Q) : 0 < q -> 0 <= Num.nearest q.
Proof.
  intros Hq. unfold Num.nearest.
  pose proof (pow2_pos (Num.ulp_exponent q)) as Pe.
  assert (L : inject_Z 0 <= q / 2 ^ Num.ulp_exponent q).
  { apply Qle_shift_div_l; [exact Pe|]. change (inject_Z 0) with 0. lra. }
  apply round_half_even_le in L. rewrite round_half_even_Z in L.
  rewrite Zle_Qle in L. change (inject_Z 0) with 0 in L. nra.
Qed.

Lemma b64pos_mono (p q : Q) :
  0 < p -> p <= q -> Num.le (Num.b64pos p) (Num.b64pos q) = true.
Proof.
  intros Hp Hpq. pose proof (nearest_mono p q Hp Hpq) as H.
  unfold Num.b64pos.
  destruct (Qle_bool (2 ^ 1024) (Num.nearest p)) eqn:Ep;
    destruct (Qle_bool (2 ^ 1024) (Num.nearest q)) eqn:Eq; try reflexivity.
  - apply Qle_bool_iff in Ep.
    assert (C : Qle_bool (2 ^ 1024) (Num.nearest q) = true)
      by (apply Qle_bool_iff; lra).
    congruence.
  - apply NumFacts.le_Fin. now rewrite !Qred_correct.
Qed.

Lemma b64pos_nonneg (q : Q) : 0 < q -> Num.le (Fin 0) (Num.b64pos q) = true.
Proof.
  intros Hq. unfold Num.b64pos.
  destruct (Qle_bool (2 ^ 1024) (Num.nearest q)); [reflexivity|].
  apply NumFacts.le_Fin. rewrite Qred_correct. now apply nearest_nonneg.
Qed.

Lemma neg_antitone (a b : number) :
  Num.le a b = true -> Num.le (Num.neg b) (Num.neg a) = true.
Proof.
  destruct a as [| | |x], b as [| | |y]; simpl; try congruence.
  intros H. apply NumFacts.le_Fin in H.
  change (Num.le (Fin (Qred (- y))) (Fin (Qred (- x))) = true).
  apply NumFacts.le_Fin. rewrite !Qred_correct. lra.
Qed.

(** Rounding to binary64 keeps the order of the exact results. *)
Lemma b64_mono (p q : Q) : p <= q -> Num.le (Num.b64 p) (Num.b64 q) = true.
Proof.
  intros H. unfold Num.b64.
  destruct (Qcompare_spec p 0) as [Hp|Hp|Hp];
    destruct (Qcompare_spec q 0) as [Hq|Hq|Hq]; try lra.
  - reflexivity.
  - now apply b64pos_nonneg.
  - change (Fin 0) with (Num.neg (Fin 0)). apply neg_antitone.
    apply b64pos_nonneg. lra.
  - apply neg_antitone. apply b64pos_mono; lra.
  - apply NumFacts.le_trans with (Fin 0).
    + change (Fin 0) with (Num.neg (Fin 0)). apply neg_antitone.
      apply b64pos_nonneg. lra.
    + now apply b64pos_nonneg.
  - now apply b64pos_mono.
Qed.

Lemma le_not_NaN (a b : number) : Num.le a b = true -> a <> NaN /\ b <> NaN.
Proof. destruct a, b; simpl; intros H; split; congruence. Qed.

Lemma b64_not_NaN (q : Q) : Num.b64 q <> NaN.
Proof. apply (le_not_NaN _ _ (b64_mono q q (Qle_refl q))). Qed.

Lemma le_PInf (a : number) : a <> NaN -> Num.le a PInf = true.
Proof. destruct a; simpl; congruence. Qed.

Lemma le_NInf (a : number) : a <> NaN -> Num.le NInf a = true.
Proof. destruct a; simpl; congruence. Qed.

End Rounding.

(** ** Monotonicity of the position mapping *)

Module Monotone.

Local Open Scope Q_scope.

(** The cases of an order between two numbers that are not finite close by
    computation; between two finite numbers the order of the exact results
    is left. *)
Ltac by_cases a b H :=
  destruct a as [| | |?x], b as [| | |?y];
  try discriminate H; cbn -[Num.b64];
  try reflexivity;
  try (apply Rounding.le_PInf, Rounding.b64_not_NaN);
  try (apply Rounding.le_NInf, Rounding.b64_not_NaN);
  try (apply NumFacts.le_Fin in H).

Lemma Qround_half_away_le (p q : Q) :
  p <= q -> (Num.Qround_half_away p <= Num.Qround_half_away q)%Z.
Proof.
  intros H. unfold Num.Qround_half_away, Num.Qsgn.
  assert (F : forall a, 0 <= a -> (0 <= Qfloor (a + (1 # 2)))%Z).
  { intros a Ha. change 0%Z with (Qfloor 0). apply Qfloor_resp_le. lra. }
  destruct (Qcompare_spec p 0) as [Hp|Hp|Hp];
    destruct (Qcompare_spec q 0) as [Hq|Hq|Hq];
    try (apply Qfloor_resp_le; lra); try lra.
  - assert (0 <= Qfloor (- p + (1 # 2)))%Z by (apply F; lra).
    assert (0 <= Qfloor (q + (1 # 2)))%Z by (apply F; lra). lia.
  - apply Z.opp_le_mono. rewrite !Z.opp_involutive. apply Qfloor_resp_le. lra.
  - assert (0 <= Qfloor (- p + (1 # 2)))%Z by (apply F; lra).
    assert (0 <= Qfloor (q + (1 # 2)))%Z by (apply F; lra). lia.
Qed.

Lemma sub_r_mono (p q l : Q) :
  p <= q -> Num.le (Num.sub (Fin p) (Fin l)) (Num.sub (Fin q) (Fin l)) = true.
Proof. intros H. apply Rounding.b64_mono. lra. Qed.

Lemma div_pos_mono (a b : number) (w : Q) :
  Num.le a b = true -> 0 < w ->
  Num.le (Num.div a (Fin w)) (Num.div b (Fin w)) = true.
Proof.
  intros H Hw.
  assert (Hc : (w ?= 0) = Gt) by (apply Qgt_alt; exact Hw).
  unfold Num.div, Num.Qsgn. rewrite Hc. by_cases a b H.
  apply Rounding.b64_mono. unfold Qdiv.
  apply Qmult_le_compat_r; [exact H|].
  apply Qlt_le_weak. now apply Qinv_lt_0_compat.
Qed.

Lemma Qinv_neg (w : Q) : w < 0 -> / w < 0.
Proof.
  intros Hw. setoid_replace (/ w) with (- / (- w)).
  - assert (0 < / - w) by (apply Qinv_lt_0_compat; lra). lra.
  - field. intros C. rewrite C in Hw. discriminate Hw.
Qed.

Lemma div_neg_anti (a b : number) (w : Q) :
  Num.le a b = true -> w < 0 ->
  Num.le (Num.div b (Fin w)) (Num.div a (Fin w)) = true.
Proof.
  intros H Hw.
  assert (Hc : (w ?= 0) = Lt) by (apply Qlt_alt; exact Hw).
  unfold Num.div, Num.Qsgn. rewrite Hc. by_cases a b H.
  apply Rounding.b64_mono. unfold Qdiv. pose proof (Qinv_neg w Hw). nra.
Qed.

Lemma flip_anti (a b : number) :
  Num.le a b = true ->
  Num.le (Num.sub (Num.of_Z 1) b) (Num.sub (Num.of_Z 1) a) = true.
Proof.
  intros H. unfold Num.sub, Num.of_Z. by_cases a b H.
  apply Rounding.b64_mono. lra.
Qed.

Lemma add_r_mono (a b : number) (m : Q) :
  Num.le a b = true -> Num.le (Num.add a (Fin m)) (Num.add b (Fin m)) = true.
Proof.
  intros H. unfold Num.add. by_cases a b H.
  apply Rounding.b64_mono. lra.
Qed.

Lemma mul_pos_mono (a b : number) (k : Q) :
  Num.le a b = true -> 0 < k ->
  Num.le (Num.mul a (Fin k)) (Num.mul b (Fin k)) = true.
Proof.
  intros H Hk.
  assert (Hc : (k ?= 0) = Gt) by (apply Qgt_alt; exact Hk).
  unfold Num.mul, Num.signed_inf, Num.Qsgn. rewrite Hc. by_cases a b H.
  apply Rounding.b64_mono. nra.
Qed.

Lemma mul_neg_anti (a b : number) (k : Q) :
  Num.le a b = true -> k < 0 ->
  Num.le (Num.mul b (Fin k)) (Num.mul a (Fin k)) = true.
Proof.
  intros H Hk.
  assert (Hc : (k ?= 0) = Lt) by (apply Qlt_alt; exact Hk).
  unfold Num.mul, Num.signed_inf, Num.Qsgn. rewrite Hc. by_cases a b H.
  apply Rounding.b64_mono. nra.
Qed.

Lemma round_half_away_mono (a b : number) :
  Num.le a b = true ->
  Num.le (Num.round_half_away a) (Num.round_half_away b) = true.
Proof.
  intros H. by_cases a b H.
  apply NumFacts.le_Fin. rewrite <- Zle_Qle. now apply Qround_half_away_le.
Qed.

(** Snapping to a multiple of a step that is not zero keeps the order,
    whatever the sign of the step. *)
Lemma toNearestMultipleOf_mono (a b : number) (st : Q) :
  Num.le a b = true -> ~ st == 0 ->
  Num.le (toNearestMultipleOf a (Fin st)) (toNearestMultipleOf b (Fin st)) = true.
Proof.
  intros H Hst. unfold toNearestMultipleOf.
  destruct (Qcompare_spec st 0) as [E|Hneg|Hpos]; [contradiction| |].
  - apply mul_neg_anti; [|exact Hneg]. apply round_half_away_mono.
    now apply div_neg_anti.
  - apply mul_pos_mono; [|exact Hpos]. apply round_half_away_mono.
    now apply div_pos_mono.
Qed.

Lemma getSliderStep_nonzero (s : Slider) (st : Q) :
  getSliderStep s = Fin st -> ~ st == 0.
Proof.
  unfold getSliderStep, falsy_or. intros H Hz.
  assert (Hc : (st ?= 0) = Eq) by (apply Qeq_alt; exact Hz).
  destruct (Props.step (props s)) as [n|].
  - destruct (Num.truthy n) eqn:E.
    + subst n. unfold Num.truthy, Num.Qsgn in E. rewrite Hc in E. discriminate.
    + injection H as <-. discriminate Hc.
  - injection H as <-. discriminate Hc.
Qed.

(** A difference [max - min] of bounds in order that is finite is not
    negative. *)
Lemma span_nonneg (mn mx k : Q) :
  mn <= mx -> Num.sub (Fin mx) (Fin mn) = Fin k -> 0 <= k.
Proof.
  intros H E.
  assert (L : Num.le (Num.b64 0) (Num.b64 (mx - mn)) = true)
    by (apply Rounding.b64_mono; lra).
  change (Num.b64 (mx - mn)) with (Num.sub (Fin mx) (Fin mn)) in L.
  rewrite E in L. change (Num.b64 0) with (Fin 0) in L.
  now apply NumFacts.le_Fin in L.
Qed.

End Monotone.

(** The part of [getValueForPagePosition] after the percent is known keeps
    the order of two finite percents when the difference of the bounds is
    finite and not negative. *)
Lemma percent_to_value_mono (p1 p2 k mn st : Q) :
  (p1 <= p2)%Q -> (0 <= k)%Q -> ~ (st == 0)%Q ->
  Num.le
    (toNearestMultipleOf (Num.add (Num.mul (Fin p1) (Fin k)) (Fin mn)) (Fin st))
    (toNearestMultipleOf (Num.add (Num.mul (Fin p2) (Fin k)) (Fin mn)) (Fin st))
  = true.
Proof.
  intros Hp Hk Hst.
  apply Monotone.toNearestMultipleOf_mono; [|exact Hst].
  apply Monotone.add_r_mono. apply Rounding.b64_mono. nra.
Qed.

(** The statement of C6 fails when the bounds in effect are not in order:
    with [min = 200] and the default [max] of [100], on a horizontal
    left-to-right slider, the left end of the track maps to [200] and the
    right end to [100]. *)
Lemma inverted_bounds_reverse_mapping :
  getOrientation inverted_bounds_slider = horizontal /\
  getInlineDirection inverted_bounds_slider = ltr /\
  getSliderRange inverted_bounds_slider = ValueRange.mk (Num.of_Z 200) (Num.of_Z 100) /\
  getValueForPagePosition inverted_bounds_slider
    (Coordinate.mk (Num.of_Z 0) (Num.of_Z 10)) = Num.of_Z 200 /\
  getValueForPagePosition inverted_bounds_slider
    (Coordinate.mk (Num.of_Z 100) (Num.of_Z 10)) = Num.of_Z 100 /\
  Num.le
    (getValueForPagePosition inverted_bounds_slider
       (Coordinate.mk (Num.of_Z 0) (Num.of_Z 10)))
    (getValueForPagePosition inverted_bounds_slider
       (Coordinate.mk (Num.of_Z 100) (Num.of_Z 10))) = false.
Proof.
  repeat split; vm_compute; reflexivity.
Qed.

(** The mapping reads the [dir] prop alone.  Where the prop is not given and
    the locale is [rtl], [getInlineDirection] reports [rtl] to the thumbs
    while the track still maps its left end to the minimum. *)
Lemma locale_direction_does_not_flip :
  getInlineDirection rtl_locale_slider = rtl /\
  getValueForPagePosition rtl_locale_slider
    (Coordinate.mk (Num.of_Z 0) (Num.of_Z 10)) = Num.of_Z 0 /\
  getValueForPagePosition rtl_locale_slider
    (Coordinate.mk (Num.of_Z 100) (Num.of_Z 10)) = Num.of_Z 10.
Proof.
  repeat split; vm_compute; reflexivity.
Qed.

(** With bounds whose difference overflows the mapping is not monotone
    either: the left end of the track maps to [NaN], its middle to
    [Infinity]. *)
Lemma overflowing_bounds_map_to_NaN :
  getSliderRange overflowing_bounds_slider
    = ValueRange.mk (Num.of_Z (- 2 ^ 1023)) (Num.of_Z (2 ^ 1023)) /\
  Num.sub (Num.of_Z (2 ^ 1023)) (Num.of_Z (- 2 ^ 1023)) = PInf /\
  getValueForPagePosition overflowing_bounds_slider
    (Coordinate.mk (Num.of_Z 0) (Num.of_Z 10)) = NaN /\
  getValueForPagePosition overflowing_bounds_slider
    (Coordinate.mk (Num.of_Z 50) (Num.of_Z 10)) = PInf.
Proof.
  repeat split; vm_compute; reflexivity.
Qed.

Lemma getValueForPagePosition_percent (s : Slider) (rect : DOMRect.t) (c : Coordinate.t) :
  trackRef s = Some rect ->
  getValueForPagePosition s c
    = toNearestMultipleOf
        (Num.add
           (Num.mul (percent_at s rect c)
              (Num.sub (ValueRange.max (getSliderRange s))
                 (ValueRange.min (getSliderRange s))))
           (ValueRange.min (getSliderRange s)))
        (getSliderStep s).
Proof.
  intros H. unfold getValueForPagePosition. now rewrite H.
Qed.

(** C6, amended.  On a measured track of positive extent, for finite
    coordinates whose percent along the track is finite, a finite step and
    finite bounds in effect with [min <= max] whose difference [max - min]
    is finite, the value of a position is monotonically increasing in [x]
    when the slider is horizontal and its direction is [ltr], and
    monotonically decreasing in the coordinate of the primary axis when the
    slider is horizontal with its [dir] prop set to [rtl] or when it is
    vertical; a vertical slider is flipped once whatever its direction.
    The arithmetic is that of binary64: every operation of the mapping
    rounds, and rounding keeps the order. *)
Theorem position_mapping_monotone
    (s : Slider) (l tp w h mn mx k st x1 y1 x2 y2 : Q) :
  let rect := DOMRect.mk (Fin l) (Fin tp) (Fin w) (Fin h) in
  let c1 := Coordinate.mk (Fin x1) (Fin y1) in
  let c2 := Coordinate.mk (Fin x2) (Fin y2) in
  trackRef s = Some rect ->
  getSliderRange s = ValueRange.mk (Fin mn) (Fin mx) -> (mn <= mx)%Q ->
  Num.sub (Fin mx) (Fin mn) = Fin k ->
  getSliderStep s = Fin st ->
  Num.is_finite (percent_at s rect c1) -> Num.is_finite (percent_at s rect c2) ->
  (getOrientation s = horizontal -> getInlineDirection s = ltr ->
   (0 < w)%Q -> (x1 <= x2)%Q ->
   Num.le (getValueForPagePosition s c1) (getValueForPagePosition s c2) = true) /\
  (getOrientation s = horizontal -> Props.dir (props s) = Some rtl ->
   (0 < w)%Q -> (x1 <= x2)%Q ->
   Num.le (getValueForPagePosition s c2) (getValueForPagePosition s c1) = true) /\
  (getOrientation s = vertical ->
   (0 < h)%Q -> (y1 <= y2)%Q ->
   Num.le (getValueForPagePosition s c2) (getValueForPagePosition s c1) = true).
Proof.
  intros rect c1 c2 Htrack Hrange Hb Hspan Hstep Hf1 Hf2.
  pose proof (Monotone.getSliderStep_nonzero s st Hstep) as Hst.
  pose proof (Monotone.span_nonneg mn mx k Hb Hspan) as Hk.
  rewrite !(getValueForPagePosition_percent s rect _ Htrack).
  rewrite Hrange, Hstep. cbn [ValueRange.min ValueRange.max]. rewrite Hspan.
  destruct (percent_at s rect c1) as [| | |p1] eqn:E1; try contradiction.
  destruct (percent_at s rect c2) as [| | |p2] eqn:E2; try contradiction.
  unfold percent_at, rect, c1, c2 in E1, E2.
  cbn [Coordinate.x Coordinate.y DOMRect.left DOMRect.top DOMRect.width DOMRect.height]
    in E1, E2.
  split; [|split].
  - intros Ho Hdir Hw Hx. rewrite Ho in E1, E2.
    assert (E : dir_is_rtl s = false).
    { unfold getInlineDirection in Hdir. unfold dir_is_rtl.
      destruct (Props.dir (props s)) as [[|]|]; congruence. }
    rewrite E in E1, E2. cbn [is_vertical orb] in E1, E2.
    apply percent_to_value_mono; auto.
    apply NumFacts.le_Fin. rewrite <- E1, <- E2.
    apply Monotone.div_pos_mono; [|exact Hw]. now apply Monotone.sub_r_mono.
  - intros Ho Hdir Hw Hx. rewrite Ho in E1, E2.
    assert (E : dir_is_rtl s = true) by (unfold dir_is_rtl; now rewrite Hdir).
    rewrite E in E1, E2. cbn [is_vertical orb] in E1, E2.
    apply percent_to_value_mono; auto.
    apply NumFacts.le_Fin. rewrite <- E1, <- E2.
    apply Monotone.flip_anti.
    apply Monotone.div_pos_mono; [|exact Hw]. now apply Monotone.sub_r_mono.
  - intros Ho Hh Hy. rewrite Ho in E1, E2.
    rewrite orb_true_r in E1, E2.
    apply percent_to_value_mono; auto.
    apply NumFacts.le_Fin. rewrite <- E1, <- E2.
    apply Monotone.flip_anti.
    apply Monotone.div_pos_mono; [|exact Hh]. now apply Monotone.sub_r_mono.
Qed.

Lemma position_mapping_monotone_witness :
  Num.le
    (getValueForPagePosition scenario (Coordinate.mk (Fin 30) (Fin 10)))
    (getValueForPagePosition scenario (Coordinate.mk (Fin 70) (Fin 5))) = true.
Proof.
  apply (proj1 (position_mapping_monotone scenario 0 0 100 20 0 10 10 1 30 10 70 5
                  eq_refl eq_refl ltac:(discriminate) ltac:(vm_compute; reflexivity)
                  eq_refl ltac:(vm_compute; exact I) ltac:(vm_compute; exact I)));
    try reflexivity; discriminate.
Defined.

(** ** The registry: registering and unregistering thumbs *)

Lemma findIndex_from_app_found {A : Type} (p : A -> bool) (l m : list A) (i0 : Z) :
  0 <= i0 -> 0 <= findIndex_from p l i0 ->
  findIndex_from p (l ++ m) i0 = findIndex_from p l i0.
Proof.
  revert i0. induction l as [|x rest IH]; intros i0 Hi0 Hfound; simpl in *.
  - lia.
  - destruct (p x); [reflexivity|]. apply IH; [lia | exact Hfound].
Qed.

Lemma findIndex_from_app_absent {A : Type} (p : A -> bool) (l m : list A) (i0 : Z) :
  (forall t, In t l -> p t = false) ->
  findIndex_from p (l ++ m) i0 = findIndex_from p m (i0 + Z.of_nat (List.length l)).
Proof.
  revert i0. induction l as [|x rest IH]; intros i0 Habs.
  - simpl. f_equal. lia.
  - cbn [app findIndex_from]. rewrite (Habs x (or_introl eq_refl)).
    rewrite IH by (intros t Ht; apply Habs; now right).
    f_equal. cbn [List.length]. lia.
Qed.

Lemma removeFirst_absent {A : Type} (p : A -> bool) (l : list A) :
  (forall t, In t l -> p t = false) -> removeFirst l p = l.
Proof.
  induction l as [|x rest IH]; intros Habs; simpl; [reflexivity|].
  rewrite (Habs x (or_introl eq_refl)). f_equal.
  apply IH. intros t Ht. apply Habs. now right.
Qed.

Lemma removeFirst_app_last {A : Type} (p : A -> bool) (l : list A) (x : A) :
  (forall t, In t l -> p t = false) -> p x = true -> removeFirst (l ++ [x]) p = l.
Proof.
  induction l as [|y rest IH]; intros Habs Hx; simpl.
  - now rewrite Hx.
  - rewrite (Habs y (or_introl eq_refl)). f_equal.
    apply IH; [|exact Hx]. intros t Ht. apply Habs. now right.
Qed.

Lemma removeFirst_length {A : Type} (p : A -> bool) (l : list A) :
  existsb p l = true -> S (List.length (removeFirst l p)) = List.length l.
Proof.
  induction l as [|x rest IH]; simpl; [discriminate|].
  destruct (p x); simpl; [reflexivity|]. intros H. now rewrite IH.
Qed.

(** X1. Registering a thumb whose id is not in the registry puts it last:
    its index is the number of thumbs registered before.  The thumbs already
    registered keep their index, and the range each of them is given does
    not change. *)
Theorem registration_appends (ctx : ThumbRegistration) (s : Slider) :
  id_registered (id ctx) s = false ->
  let s' := useSliderThumbRegistration ctx s in
  getThumbIndex (id ctx) s' = Z.of_nat (List.length (thumbs s)) /\
  (forall id0, 0 <= getThumbIndex id0 s -> getThumbIndex id0 s' = getThumbIndex id0 s) /\
  (forall t, 0 <= indexOf (thumbs s) t -> getThumbRange s' t = getThumbRange s t).
Proof.
  intros Hfresh s'. unfold id_registered in Hfresh.
  assert (Habs : forall t, In t (thumbs s) -> String.eqb (id t) (id ctx) = false).
  { intros t Ht. destruct (String.eqb (id t) (id ctx)) eqn:E; [|reflexivity].
    rewrite <- Hfresh. symmetry. apply existsb_exists. now exists t. }
  split; [|split].
  - unfold getThumbIndex, findIndex, s'. simpl.
    rewrite findIndex_from_app_absent by exact Habs.
    simpl. rewrite String.eqb_refl. lia.
  - intros id0 Hfound. unfold getThumbIndex, findIndex, s' in *. simpl.
    now apply findIndex_from_app_found.
  - intros t Hfound. unfold getThumbRange, indexOf, findIndex, s' in *. simpl.
    rewrite findIndex_from_app_found by (lia || exact Hfound). reflexivity.
Qed.

Lemma registration_appends_witness :
  getThumbIndex (id thumbC) (useSliderThumbRegistration thumbC scenario)
    = Z.of_nat (List.length (thumbs scenario)) /\
  (forall id0, 0 <= getThumbIndex id0 scenario ->
     getThumbIndex id0 (useSliderThumbRegistration thumbC scenario)
       = getThumbIndex id0 scenario) /\
  (forall t, 0 <= indexOf (thumbs scenario) t ->
     getThumbRange (useSliderThumbRegistration thumbC scenario) t
       = getThumbRange scenario t).
Proof.
  apply (registration_appends thumbC scenario). reflexivity.
Defined.

(** X2. Unmounting a thumb whose id is registered removes one registration
    and leaves the field value as it is, so the field then holds as many
    positions as before for one thumb less; unmounting with an id that is not
    registered changes nothing.  Unmounting the thumb that was registered
    last, under a fresh id, gives the registry back. *)
Theorem unregistration_removes_one (id0 : string) (ctx : ThumbRegistration) (s : Slider) :
  (id_registered id0 s = true ->
   S (List.length (thumbs (unregisterThumb id0 s))) = List.length (thumbs s) /\
   fieldValue (unregisterThumb id0 s) = fieldValue s) /\
  (id_registered id0 s = false -> unregisterThumb id0 s = s) /\
  (id_registered (id ctx) s = false ->
   unregisterThumb (id ctx) (useSliderThumbRegistration ctx s) = s).
Proof.
  assert (Habs : forall i, id_registered i s = false ->
            forall t, In t (thumbs s) -> String.eqb (id t) i = false).
  { intros i Hfresh t Ht. destruct (String.eqb (id t) i) eqn:E; [|reflexivity].
    rewrite <- Hfresh. symmetry. apply existsb_exists. now exists t. }
  split; [|split].
  - intros Hreg. split; [|reflexivity].
    unfold unregisterThumb. simpl. now apply removeFirst_length.
  - intros Hfresh. unfold unregisterThumb.
    rewrite removeFirst_absent by (apply Habs; exact Hfresh).
    now destruct s.
  - intros Hfresh. unfold unregisterThumb, useSliderThumbRegistration. simpl.
    rewrite removeFirst_app_last;
      [now destruct s | apply Habs; exact Hfresh | apply String.eqb_refl].
Qed.

Lemma unregistration_removes_one_witness :
  S (List.length (thumbs (unregisterThumb "thumb-b" scenario)))
    = List.length (thumbs scenario) /\
  fieldValue (unregisterThumb "thumb-b" scenario) = fieldValue scenario.
Proof.
  apply (proj1 (unregistration_removes_one "thumb-b" thumbC scenario)). reflexivity.
Defined.

(** X3. A registration object that is not in the registry has index [-1]:
    its range has the absolute minimum as [min] and, as [max], the value of
    the first position of the field when that is set, the absolute maximum
    otherwise. *)
Theorem unregistered_thumb_range (s : Slider) (t : ThumbRegistration) :
  indexOf (thumbs s) t = -1 ->
  ThumbRange.min (getThumbRange s t) = ValueRange.min (getSliderRange s) /\
  ThumbRange.max (getThumbRange s t)
    = nullish_or (getThumbValue s 0) (ValueRange.max (getSliderRange s)).
Proof.
  intros Hidx. unfold getThumbRange. rewrite Hidx. simpl. split; [|reflexivity].
  unfold getThumbValue, array_get. simpl. destruct (fieldValue s); reflexivity.
Qed.

Lemma unregistered_thumb_range_witness :
  ThumbRange.min (getThumbRange scenario thumbC) = ValueRange.min (getSliderRange scenario) /\
  ThumbRange.max (getThumbRange scenario thumbC)
    = nullish_or (getThumbValue scenario 0) (ValueRange.max (getSliderRange scenario)).
Proof.
  apply (unregistered_thumb_range scenario thumbC). reflexivity.
Defined.

(** ** The bounds and the step in effect *)

Lemma falsy_or_truthy (p : option number) (d : number) :
  Num.truthy d = true -> Num.truthy (falsy_or p d) = true.
Proof.
  intros Hd. unfold falsy_or. destruct p as [n|]; [|exact Hd].
  destruct (Num.truthy n) eqn:E; [exact E | exact Hd].
Qed.

(** X4. The step in effect and the maximum in effect are never [0] and
    never [NaN], so that the quantizer never divides by zero; the minimum in
    effect is never [NaN].  A [max] prop of [0] is replaced by [100] like a
    prop that is not given, while a [min] prop of [0] gives the minimum
    [0]. *)
Theorem step_and_maximum_never_zero :
  (forall s : Slider,
     Num.truthy (getSliderStep s) = true /\
     Num.truthy (ValueRange.max (getSliderRange s)) = true /\
     ValueRange.min (getSliderRange s) <> NaN) /\
  (forall (s : Slider) (q : Q),
     (q == 0)%Q ->
     (Props.max (props s) = Some (Fin q) ->
      ValueRange.max (getSliderRange s) = Num.of_Z 100) /\
     (Props.min (props s) = Some (Fin q) ->
      ValueRange.min (getSliderRange s) = Num.of_Z 0)).
Proof.
  split.
  - intros s. split; [|split].
    + apply falsy_or_truthy. reflexivity.
    + apply falsy_or_truthy. reflexivity.
    + apply NumFacts.falsy_or_not_NaN. discriminate.
  - intros s q Hq.
    assert (Hc : (q ?= 0)%Q = Eq) by (apply Qeq_alt; exact Hq).
    split; intros Hp; unfold getSliderRange, falsy_or; simpl; rewrite Hp;
      unfold Num.truthy, Num.Qsgn; now rewrite Hc.
Qed.

Lemma step_and_maximum_never_zero_witness :
  ValueRange.max (getSliderRange zero_max_slider) = Num.of_Z 100.
Proof.
  apply (proj1 (proj2 step_and_maximum_never_zero zero_max_slider 0%Q
                  ltac:(reflexivity))).
  reflexivity.
Defined.

(** ** What a commit and a pointer-down leave alone *)

Lemma setThumbValue_frame (i : Z) (x : number) (s : Slider) :
  props (setThumbValue i x s) = props s /\
  direction (setThumbValue i x s) = direction s /\
  trackRef (setThumbValue i x s) = trackRef s /\
  thumbs (setThumbValue i x s) = thumbs s /\
  touched (setThumbValue i x s) = touched s.
Proof.
  unfold setThumbValue. destruct (negb (isMutable s)); [auto|].
  destruct (List.length (thumbs s) <=? 1)%nat; simpl; auto.
Qed.

Lemma setThumbValue_calls (i : Z) (x : number) (s : Slider) :
  isMutable s = true ->
  calls (setThumbValue i x s)
    = UpdateValidity :: SetValue (fieldValue (setThumbValue i x s)) :: calls s.
Proof.
  intros Hm. unfold setThumbValue. rewrite Hm. simpl.
  destruct (List.length (thumbs s) <=? 1)%nat; reflexivity.
Qed.

(** X5. A registered thumb of a mutable slider that sets its value through
    its registration reads the same value back through it, whether the field
    holds a scalar (at most one thumb) or an array. *)
Theorem thumb_reads_back_its_value (ctx : ThumbRegistration) (x : number) (s : Slider) :
  isMutable s = true -> 0 <= getThumbIndex (id ctx) s ->
  reg_getThumbValue ctx (reg_setThumbValue (id ctx) x s) = x.
Proof.
  intros Hm Hreg. unfold reg_getThumbValue, reg_setThumbValue.
  set (i := getThumbIndex (id ctx) s) in *.
  assert (Hi : i < Z.of_nat (List.length (thumbs s))).
  { unfold i, getThumbIndex, findIndex in *.
    destruct (findIndex_from_bound (fun t => String.eqb (id t) (id ctx)) (thumbs s) 0);
      lia. }
  assert (Hsame : getThumbIndex (id ctx) (setThumbValue i x s) = i).
  { unfold getThumbIndex.
    destruct (setThumbValue_frame i x s) as (_ & _ & _ & -> & _). reflexivity. }
  rewrite Hsame.
  assert (Hv : getThumbValue (setThumbValue i x s) i = num x).
  { unfold setThumbValue. rewrite Hm. simpl.
    destruct (List.length (thumbs s) <=? 1)%nat eqn:El.
    - apply Nat.leb_le in El. assert (i = 0) by lia. subst i.
      unfold getThumbValue. simpl. replace (getThumbIndex (id ctx) s) with 0.
      reflexivity.
    - eapply array_get_set_eq; [reflexivity | exact Hreg]. }
  now rewrite Hv.
Qed.

Lemma thumb_reads_back_its_value_witness :
  reg_getThumbValue thumbB (reg_setThumbValue (id thumbB) (Num.of_Z 9) scenario)
    = Num.of_Z 9.
Proof.
  apply (thumb_reads_back_its_value thumbB (Num.of_Z 9) scenario).
  - reflexivity.
  - vm_compute. discriminate.
Defined.

(** X6. A pointer-down on the track does nothing exactly when the track is
    not mounted or the slider is not mutable.  Otherwise it makes three calls
    on the field service, in this order: [setValue], [updateValidity],
    [setTouched(true)]; and it never changes the props, the track or the
    registry. *)
Theorem pointer_down_acts_iff_mutable_and_measured (e : MouseEvent) (s : Slider) :
  (onMousedown e s = s <-> trackRef s = None \/ isMutable s = false) /\
  (trackRef s <> None -> isMutable s = true ->
   calls (onMousedown e s)
     = SetTouched true :: UpdateValidity
         :: SetValue (fieldValue (onMousedown e s)) :: calls s /\
   touched (onMousedown e s) = true) /\
  props (onMousedown e s) = props s /\
  trackRef (onMousedown e s) = trackRef s /\
  thumbs (onMousedown e s) = thumbs s.
Proof.
  assert (Hact : trackRef s <> None -> isMutable s = true ->
            calls (onMousedown e s)
              = SetTouched true :: UpdateValidity
                  :: SetValue (fieldValue (onMousedown e s)) :: calls s /\
            touched (onMousedown e s) = true).
  { intros Ht Hm. destruct (trackRef s) as [rect|] eqn:Er; [|congruence].
    rewrite (onMousedown_commits s e rect Er Hm). cbv zeta. simpl.
    rewrite setThumbValue_calls by exact Hm. split; reflexivity. }
  split; [|split; [exact Hact|]].
  - split.
    + intros Hnoop.
      destruct (trackRef s) as [rect|] eqn:Er; [|now left].
      destruct (isMutable s) eqn:Hm; [|now right].
      exfalso. destruct Hact as [Hcalls _]; [congruence | reflexivity |].
      rewrite Hnoop in Hcalls.
      apply (f_equal (@List.length FieldCall)) in Hcalls. simpl in Hcalls. lia.
    + intros [Hn | Hm]; unfold onMousedown.
      * now rewrite Hn.
      * rewrite Hm. simpl. destruct (trackRef s); reflexivity.
  - destruct (trackRef s) as [rect|] eqn:Er.
    + destruct (isMutable s) eqn:Hm.
      * rewrite (onMousedown_commits s e rect Er Hm). cbv zeta.
        cbn [setTouched props trackRef thumbs].
        match goal with
        | |- context [setThumbValue ?i ?x s] =>
            destruct (setThumbValue_frame i x s) as (Hp & _ & Ht & Hth & _)
        end.
        rewrite Hp, Ht, Hth. auto.
      * unfold onMousedown. rewrite Er, Hm. simpl. auto.
    + unfold onMousedown. rewrite Er. auto.
Qed.

Lemma pointer_down_acts_iff_mutable_and_measured_witness :
  calls (onMousedown click_at_30 scenario)
    = SetTouched true :: UpdateValidity
        :: SetValue (fieldValue (onMousedown click_at_30 scenario)) :: calls scenario /\
  touched (onMousedown click_at_30 scenario) = true.
Proof.
  apply (proj1 (proj2 (pointer_down_acts_iff_mutable_and_measured click_at_30 scenario))).
  - discriminate.
  - reflexivity.
Defined.

(** X7. The candidate the reduction returns always names an entry of the
    registry: its index is not negative, its thumb is the registration at
    that index (none when the registry is empty), and with a thumb registered
    the index is below the number of thumbs. *)
Theorem closest_names_registry_entry (s : Slider) (target : number) :
  let c := closest s target in
  0 <= Candidate.idx c /\
  Candidate.thumb c = nth_error (thumbs s) (Z.to_nat (Candidate.idx c)) /\
  (thumbs s <> [] -> Candidate.idx c < Z.of_nat (List.length (thumbs s))).
Proof.
  intros c. unfold c, closest, reduce.
  destruct (reduce_from_closer s target (thumbs s) 0
              (Candidate.mk (nth_error (thumbs s) 0) PInf 0))
    as [[Hr _] | (k & th & d & Hk & Hr & _)]; rewrite Hr; simpl.
  - split; [lia|]. split; [reflexivity|].
    intros Hne. destruct (thumbs s); [congruence | simpl; lia].
  - assert (Hlt : (k < List.length (thumbs s))%nat).
    { apply nth_error_Some. congruence. }
    split; [lia|]. split; [|intros _; lia].
    now rewrite Nat2Z.id.
Qed.

Lemma closest_names_registry_entry_witness :
  Candidate.idx (closest scenario (Num.of_Z 3))
    < Z.of_nat (List.length (thumbs scenario)).
Proof.
  apply (proj2 (proj2 (closest_names_registry_entry scenario (Num.of_Z 3)))).
  discriminate.
Defined.

(** ** A pointer-down keeps the values in order *)










(** ** A vertical slider and the [dir] prop *)

(** X11. On a vertical slider the [dir] prop changes nothing in the mapping
    of a position: the percent is flipped once, whether [dir] is [rtl],
    [ltr] or not given. *)
Theorem vertical_mapping_ignores_dir (s : Slider) (d : option Direction)
    (c : Coordinate.t) :
  getOrientation s = vertical ->
  getValueForPagePosition (with_dir d s) c = getValueForPagePosition s c.
Proof.
  intros Ho.
  unfold getValueForPagePosition, with_dir, getOrientation, dir_is_rtl in *.
  cbn [props trackRef Props.orientation Props.dir Props.min Props.max Props.step].
  destruct (trackRef s); [|reflexivity].
  destruct (Props.orientation (props s)) as [[|]|]; try discriminate.
  cbn [is_vertical]. now rewrite !orb_true_r.
Qed.

Lemma vertical_mapping_ignores_dir_witness :
  getValueForPagePosition (with_dir (Some rtl) vertical_slider)
    (Coordinate.mk (Num.of_Z 30) (Num.of_Z 5))
  = getValueForPagePosition vertical_slider
      (Coordinate.mk (Num.of_Z 30) (Num.of_Z 5)).
Proof.
  apply (vertical_mapping_ignores_dir vertical_slider (Some rtl)). reflexivity.
Defined.

(** ** Commits at different positions *)

Lemma list_set_comm (a : list jsval) (i j : nat) (x y : jsval) :
  i <> j -> list_set (list_set a j y) i x = list_set (list_set a i x) j y.
Proof.
  revert a j. induction i as [|i IH]; intros a [|j] Hne; try congruence.
  - destruct a; reflexivity.
  - destruct a; reflexivity.
  - destruct a as [|z rest]; simpl; f_equal; apply IH; congruence.
Qed.

Lemma list_set_all_set (a : list jsval) (n : nat) (v : jsval) :
  (n < List.length a)%nat -> isNullOrUndefined v = false ->
  (forall u, In u a -> isNullOrUndefined u = false) ->
  forall u, In u (list_set a n v) -> isNullOrUndefined u = false.
Proof.
  revert n. induction a as [|z rest IH]; intros [|n] Hn Hv Hall u Hu;
    simpl in *; try lia.
  - destruct Hu as [<- | Hu]; [exact Hv | apply Hall; now right].
  - destruct Hu as [<- | Hu]; [apply Hall; now left|].
    apply (IH n); try assumption; [lia|]. intros u' Hu'. apply Hall. now right.
Qed.

Lemma setThumbValue_array (s : Slider) (a : list jsval) (i : nat) (x : number) :
  isMutable s = true -> (2 <= List.length (thumbs s))%nat ->
  fieldValue s = Arr a -> (forall u, In u a -> isNullOrUndefined u = false) ->
  fieldValue (setThumbValue (Z.of_nat i) x s) = Arr (list_set a i (num x)).
Proof.
  intros Hm Hn Ha Hall. unfold setThumbValue. rewrite Hm. cbn [negb].
  destruct (List.length (thumbs s) <=? 1)%nat eqn:El;
    [apply Nat.leb_le in El; lia|].
  cbn [updateValidity setValue fieldValue]. rewrite Ha. cbn [normalizeArrayable].
  rewrite (filter_all_set a Hall). unfold array_set.
  assert (E : (Z.of_nat i <? 0) = false) by (apply Z.ltb_ge; lia).
  now rewrite E, Nat2Z.id.
Qed.

(** X12. On a mutable slider with at least two thumbs whose field holds an
    array without unset entries, two commits at different positions inside
    the array give the same field value in either order. *)
Theorem commits_at_different_positions_commute
    (s : Slider) (a : list jsval) (i j : nat) (x y : number) :
  isMutable s = true -> (2 <= List.length (thumbs s))%nat ->
  fieldValue s = Arr a -> (forall u, In u a -> isNullOrUndefined u = false) ->
  (i < List.length a)%nat -> (j < List.length a)%nat -> i <> j ->
  fieldValue (setThumbValue (Z.of_nat i) x (setThumbValue (Z.of_nat j) y s))
    = fieldValue (setThumbValue (Z.of_nat j) y (setThumbValue (Z.of_nat i) x s)).
Proof.
  intros Hm Hn Ha Hall Hi Hj Hne.
  assert (Hstep : forall k v,
            (k < List.length a)%nat ->
            let s1 := setThumbValue (Z.of_nat k) v s in
            isMutable s1 = true /\ (2 <= List.length (thumbs s1))%nat /\
            fieldValue s1 = Arr (list_set a k (num v)) /\
            (forall u, In u (list_set a k (num v)) -> isNullOrUndefined u = false)).
  { intros k v Hk s1.
    destruct (setThumbValue_frame (Z.of_nat k) v s) as (Hp & _ & _ & Hth & _).
    split; [|split; [|split]].
    - unfold isMutable, isDisabled, isReadonly, s1 in *. now rewrite Hp.
    - unfold s1. now rewrite Hth.
    - now apply setThumbValue_array.
    - now apply list_set_all_set. }
  destruct (Hstep j y Hj) as (Hm1 & Hn1 & Ha1 & Hall1).
  destruct (Hstep i x Hi) as (Hm2 & Hn2 & Ha2 & Hall2).
  rewrite (setThumbValue_array _ _ i x Hm1 Hn1 Ha1 Hall1).
  rewrite (setThumbValue_array _ _ j y Hm2 Hn2 Ha2 Hall2).
  f_equal. now apply list_set_comm.
Qed.

Lemma commits_at_different_positions_commute_witness :
  fieldValue (setThumbValue (Z.of_nat 0) (Num.of_Z 3)
                (setThumbValue (Z.of_nat 1) (Num.of_Z 9) scenario))
    = fieldValue (setThumbValue (Z.of_nat 1) (Num.of_Z 9)
                    (setThumbValue (Z.of_nat 0) (Num.of_Z 3) scenario)).
Proof.
  apply (commits_at_different_positions_commute scenario
           [num (Num.of_Z 2); num (Num.of_Z 8)] 0 1 (Num.of_Z 3) (Num.of_Z 9)).
  - reflexivity.
  - simpl. lia.
  - reflexivity.
  - intros u [<- | [<- | []]]; reflexivity.
  - simpl. lia.
  - simpl. lia.
  - discriminate.
Defined.

(** ** Indices by id and by object *)

Lemma findIndex_from_absent {A : Type} (p : A -> bool) (l : list A) (i0 : Z) :
  0 <= i0 -> findIndex_from p l i0 = -1 -> forall t, In t l -> p t = false.
Proof.
  revert i0. induction l as [|x rest IH]; intros i0 Hi0 Hnone t Ht; simpl in *.
  - contradiction.
  - destruct (p x) eqn:Ex; [lia|].
    destruct Ht as [<- | Ht]; [exact Ex|].
    apply (IH (i0 + 1)); [lia | exact Hnone | exact Ht].
Qed.

Lemma findIndex_from_ext {A : Type} (p q : A -> bool) (l : list A) (i0 : Z) :
  (forall t, In t l -> p t = q t) -> findIndex_from p l i0 = findIndex_from q l i0.
Proof.
  revert i0. induction l as [|x rest IH]; intros i0 Hext; simpl; [reflexivity|].
  rewrite (Hext x (or_introl eq_refl)). destruct (q x); [reflexivity|].
  apply IH. intros t Ht. apply Hext. now right.
Qed.

Lemma findIndex_from_shift {A : Type} (p : A -> bool) (l : list A) (i0 : Z) :
  0 <= i0 -> 0 <= findIndex_from p l (i0 + 1) ->
  findIndex_from p l i0 = findIndex_from p l (i0 + 1) - 1.
Proof.
  revert i0. induction l as [|x rest IH]; intros i0 Hi0 Hfound; simpl in *.
  - lia.
  - destruct (p x); [lia|]. apply IH; [lia | exact Hfound].
Qed.

(** X13. A thumb registered under an id that is already in use does not
    get a position of its own by id: [getIndex] keeps answering with the
    position of the earlier thumb, which is the position its
    [setThumbValue] writes, while its range is computed for the last
    position, where the new object stands. *)
Theorem duplicate_id_resolves_to_first_thumb (ctx : ThumbRegistration) (s : Slider) :
  0 <= getThumbIndex (id ctx) s -> indexOf (thumbs s) ctx = -1 ->
  let s' := useSliderThumbRegistration ctx s in
  getThumbIndex (id ctx) s' = getThumbIndex (id ctx) s /\
  getThumbIndex (id ctx) s' < Z.of_nat (List.length (thumbs s)) /\
  indexOf (thumbs s') ctx = Z.of_nat (List.length (thumbs s)) /\
  forall x, reg_setThumbValue (id ctx) x s'
            = setThumbValue (getThumbIndex (id ctx) s) x s'.
Proof.
  intros Hused Hnew s'.
  assert (E : getThumbIndex (id ctx) s' = getThumbIndex (id ctx) s).
  { unfold getThumbIndex, findIndex, s' in *. simpl.
    now apply findIndex_from_app_found. }
  split; [exact E|]. split; [|split].
  - rewrite E. unfold getThumbIndex, findIndex in *.
    destruct (findIndex_from_bound (fun t => String.eqb (id t) (id ctx)) (thumbs s) 0);
      lia.
  - unfold indexOf, findIndex, s' in *. simpl.
    rewrite findIndex_from_app_absent
      by (apply (findIndex_from_absent _ _ 0); [lia | exact Hnew]).
    simpl. unfold same_object. rewrite Nat.eqb_refl. lia.
  - intros x. unfold reg_setThumbValue. now rewrite E.
Qed.

Lemma duplicate_id_resolves_to_first_thumb_witness :
  getThumbIndex "thumb-a"
    (useSliderThumbRegistration {| id := "thumb-a"; obj := 7 |} scenario)
  = getThumbIndex "thumb-a" scenario.
Proof.
  apply (duplicate_id_resolves_to_first_thumb {| id := "thumb-a"; obj := 7 |} scenario).
  - vm_compute. discriminate.
  - reflexivity.
Defined.

(** X14. Where ids and objects identify the same registrations, the index
    by id, which the value of a thumb is read and written at, is the index by
    object, which its range is computed for. *)
Theorem index_by_id_is_index_by_object (s : Slider) (ctx : ThumbRegistration) :
  (forall t, In t (thumbs s) -> String.eqb (id t) (id ctx) = same_object ctx t) ->
  getThumbIndex (id ctx) s = indexOf (thumbs s) ctx.
Proof.
  intros Hsame. unfold getThumbIndex, indexOf, findIndex.
  now apply findIndex_from_ext.
Qed.

Lemma index_by_id_is_index_by_object_witness :
  getThumbIndex (id thumbB) scenario = indexOf (thumbs scenario) thumbB.
Proof.
  apply (index_by_id_is_index_by_object scenario thumbB).
  intros t [<- | [<- | []]]; reflexivity.
Defined.

Lemma findIndex_from_removeFirst {A : Type} (p q : A -> bool) (l : list A) (i0 : Z) :
  (forall t, p t = true -> q t = false) -> 0 <= i0 ->
  0 <= findIndex_from p l i0 -> 0 <= findIndex_from q l i0 ->
  findIndex_from q (removeFirst l p) i0
    = if findIndex_from q l i0 <? findIndex_from p l i0
      then findIndex_from q l i0
      else findIndex_from q l i0 - 1.
Proof.
  intros Hdisj. revert i0.
  induction l as [|x rest IH]; intros i0 Hi0 Hp Hq; simpl in *; [lia|].
  destruct (p x) eqn:Epx.
  - rewrite (Hdisj x Epx) in *.
    destruct (findIndex_from_bound q rest (i0 + 1)) as [B | B]; [lia|].
    assert (E : (findIndex_from q rest (i0 + 1) <? i0) = false)
      by (apply Z.ltb_ge; lia).
    rewrite E. apply findIndex_from_shift; lia.
  - simpl. destruct (q x) eqn:Eqx.
    + destruct (findIndex_from_bound p rest (i0 + 1)) as [B | B]; [lia|].
      assert (E : (i0 <? findIndex_from p rest (i0 + 1)) = true)
        by (apply Z.ltb_lt; lia).
      now rewrite E.
    + apply IH; lia.
Qed.

(** X15. Unmounting a registered thumb leaves the index of every thumb
    registered before it as it was and lowers by one the index of every
    thumb registered after it.  The field value is not touched, so a later
    thumb then reads the value that stood one position before its own. *)
Theorem unmount_shifts_later_thumbs (id0 id1 : string) (s : Slider) :
  String.eqb id0 id1 = false ->
  0 <= getThumbIndex id0 s -> 0 <= getThumbIndex id1 s ->
  let s' := unregisterThumb id0 s in
  getThumbIndex id1 s'
    = (if getThumbIndex id1 s <? getThumbIndex id0 s
       then getThumbIndex id1 s
       else getThumbIndex id1 s - 1) /\
  (getThumbIndex id0 s < getThumbIndex id1 s ->
   getThumbValue s' (getThumbIndex id1 s') = getThumbValue s (getThumbIndex id1 s - 1)).
Proof.
  intros Hne H0 H1 s'.
  assert (E : getThumbIndex id1 s'
              = if getThumbIndex id1 s <? getThumbIndex id0 s
                then getThumbIndex id1 s else getThumbIndex id1 s - 1).
  { unfold getThumbIndex, findIndex, s', unregisterThumb in *. simpl.
    apply findIndex_from_removeFirst; try assumption; [|lia].
    intros t Ht. apply String.eqb_eq in Ht. rewrite Ht. exact Hne. }
  split; [exact E|]. intros Hlater. rewrite E.
  assert (L : (getThumbIndex id1 s <? getThumbIndex id0 s) = false)
    by (apply Z.ltb_ge; lia).
  rewrite L. reflexivity.
Qed.

Lemma unmount_shifts_later_thumbs_witness :
  getThumbIndex "thumb-b" (unregisterThumb "thumb-a" scenario)
    = (if getThumbIndex "thumb-b" scenario <? getThumbIndex "thumb-a" scenario
       then getThumbIndex "thumb-b" scenario
       else getThumbIndex "thumb-b" scenario - 1) /\
  (getThumbIndex "thumb-a" scenario < getThumbIndex "thumb-b" scenario ->
   getThumbValue (unregisterThumb "thumb-a" scenario)
     (getThumbIndex "thumb-b" (unregisterThumb "thumb-a" scenario))
   = getThumbValue scenario (getThumbIndex "thumb-b" scenario - 1)).
Proof.
  apply (unmount_shifts_later_thumbs "thumb-a" "thumb-b" scenario).
  - reflexivity.
  - vm_compute. discriminate.
  - vm_compute. discriminate.
Defined.

(** ** A single thumb *)

(** X16. With at most one registered thumb, a pointer-down on the track of
    a mutable, measured slider always sets the field to the target value, as
    a scalar, whether or not the range of the thumb contains the target. *)
Theorem single_thumb_pointer_down_sets_target
    (s : Slider) (e : MouseEvent) (rect : DOMRect.t) :
  trackRef s = Some rect -> isMutable s = true ->
  (List.length (thumbs s) <= 1)%nat ->
  fieldValue (onMousedown e s)
    = Scalar (num (getValueForPagePosition s (Coordinate.mk (clientX e) (clientY e)))).
Proof.
  intros Ht Hm Hn. rewrite (onMousedown_commits s e rect Ht Hm). cbv zeta.
  cbn [setTouched fieldValue]. unfold setThumbValue. rewrite Hm. cbn [negb].
  apply Nat.leb_le in Hn. rewrite Hn. reflexivity.
Qed.

Lemma single_thumb_pointer_down_sets_target_witness :
  fieldValue (onMousedown click_at_30
                (mkSlider props_0_10 ltr (Some track100) [thumbA]
                   (Scalar (num (Num.of_Z 9))) false []))
  = Scalar (num (getValueForPagePosition
                   (mkSlider props_0_10 ltr (Some track100) [thumbA]
                      (Scalar (num (Num.of_Z 9))) false [])
                   (Coordinate.mk (clientX click_at_30) (clientY click_at_30)))).
Proof.
  apply (single_thumb_pointer_down_sets_target _ click_at_30 track100).
  - reflexivity.
  - reflexivity.
  - simpl. lia.
Defined.
